(** * pa3.c: a two-level page table, a TLB and copy-on-write fork

    A shallow embedding of [src/pa3.c].  The C globals ([tlb], [tlbSize],
    [mapcounts], [current], [ptbr], [processes]) become the fields of one
    [machine] record that every operation takes and returns.  An access
    that C gives no meaning to (an index outside an array, a read through
    a NULL directory pointer) makes the operation return [None]. *)

From stdpp Require Import base option list numbers.

Local Open Scope Z_scope.

(** ** Configuration

    [vm.h] and [types.h] are not among the sources, so the constants they
    define are parameters of the development.  Page numbers, frame
    numbers and counts are [unsigned int]: they are values of [Z] that are
    not negative, on which [/], [%], [&] and [|] of C are [Z.div],
    [Z.modulo], [Z.land] and [Z.lor]. *)
Class vm_h := {
  NR_PAGEFRAMES : Z;
  PTES_PER_PAGE_SHIFT : Z;
  NR_PTES_PER_PAGE : Z;
  RW_READ : Z;
  RW_WRITE : Z
}.

(** ** Data *)

(** [unsigned int] arithmetic wraps at 2^32. *)
Definition u32 (z : Z) : Z := z mod 2 ^ 32.

(** [struct pte]. *)
Record pte := Pte {
  valid : bool;
  writable : bool;
  pfn : Z;
  private : Z
}.

(** [struct pte_directory { struct pte ptes[NR_PTES_PER_PAGE]; }] *)
Abbreviation pte_directory := (list pte).

(** [struct pagetable { struct pte_directory *outer_ptes[NR_PTES_PER_PAGE]; }];
    [None] is the NULL pointer. *)
Abbreviation pagetable := (list (option pte_directory)).

(** [struct process]; the [list] member is the position in [processes]. *)
Record process := Process {
  pid : Z;
  pgtable : pagetable
}.

(** [struct tlb_entry]. *)
Record tlb_entry := TlbEntry {
  tlb_valid : bool;
  tlb_vpn : Z;
  tlb_pfn : Z
}.

(** The globals.  [ptbr] always points at [current->pagetable] (the
    framework starts that way and [switch_process] assigns both
    together), so it is read off [current]. *)
Record machine := Machine {
  tlb : list tlb_entry;
  tlbSize : Z;
  mapcounts : list Z;
  current : process;
  processes : list process
}.

Definition ptbr (m : machine) : pagetable := pgtable (current m).

Definition set_ptbr (pt : pagetable) (m : machine) : machine :=
  Machine (tlb m) (tlbSize m) (mapcounts m)
          (Process (pid (current m)) pt) (processes m).

Definition set_mapcounts (mc : list Z) (m : machine) : machine :=
  Machine (tlb m) (tlbSize m) mc (current m) (processes m).

Definition set_tlb (t : list tlb_entry) (n : Z) (m : machine) : machine :=
  Machine t n (mapcounts m) (current m) (processes m).

(** ** Arrays indexed by a C integer

    [load] fails outside the array.  The operations below [store] only at
    an index they have just loaded from, or into a block they have just
    allocated with room for it. *)

Definition load {A} (a : list A) (i : Z) : option A :=
  if decide (0 ≤ i) then a !! Z.to_nat i else None.

Definition store {A} (a : list A) (i : Z) (x : A) : list A :=
  <[Z.to_nat i := x]> a.

(** A counted loop [for (i = start; i < start + n; i++) body] without
    early exit. *)
Fixpoint for_loop {S} (n : nat) (i : Z) (body : Z → S → option S) (s : S)
  : option S :=
  match n with
  | O => Some s
  | S n' => s' ← body i s; for_loop n' (i + 1) body s'
  end.

Section pa3.
Context `{vm_h}.

(** [tlb] has [1UL << (PTES_PER_PAGE_SHIFT * 2)] entries. *)
Definition TLB_ENTRIES : Z := Z.shiftl 1 (PTES_PER_PAGE_SHIFT * 2).

(** ** lookup_tlb *)

(** The loop of [lookup_tlb] from index [i], with [n] iterations left. *)
Fixpoint lookup_tlb_from (t : list tlb_entry) (vpn : Z) (n : nat) (i : Z)
  : option (option Z) :=
  match n with
  | O => Some None
  | S n' =>
      e ← load t i;
      if decide (tlb_vpn e = vpn) then Some (Some (tlb_pfn e))
      else lookup_tlb_from t vpn n' (i + 1)
  end.

(** [Some (Some pfn)]: returns true with [*pfn = pfn]; [Some None]: returns
    false. *)
Definition lookup_tlb (m : machine) (vpn : Z) : option (option Z) :=
  lookup_tlb_from (tlb m) vpn (Z.to_nat (tlbSize m)) 0.

(** ** find_smallest_pfn *)

Fixpoint find_smallest_pfn_from (mc : list Z) (n : nat) (i : Z) : option Z :=
  match n with
  | O => Some NR_PAGEFRAMES
  | S n' =>
      c ← load mc i;
      if decide (c = 0) then Some i
      else find_smallest_pfn_from mc n' (i + 1)
  end.

Definition find_smallest_pfn (mc : list Z) : option Z :=
  find_smallest_pfn_from mc (Z.to_nat NR_PAGEFRAMES) 0.

(** ** insert_tlb *)

Definition insert_tlb (m : machine) (vpn pfn' : Z) : option machine :=
  let new_entry := TlbEntry true vpn pfn' in
  _ ← load (tlb m) (tlbSize m);
  Some (set_tlb (store (tlb m) (tlbSize m) new_entry) (tlbSize m + 1) m).

(** ** Page table access *)

(** What [malloc] hands out is not initialised.  The content of a fresh
    directory is an input of the operation that allocates it: [fresh j]
    is what [ptes[j]] happens to hold.  [malloc] is taken to succeed, as
    the code takes it. *)
Definition malloc_directory (fresh : nat → pte) : pte_directory :=
  fresh <$> seq 0 (Z.to_nat NR_PTES_PER_PAGE).

(** Read [ptbr->outer_ptes[outer]->ptes[inner]]. *)
Definition pte_at (pt : pagetable) (outer inner : Z) : option pte :=
  slot ← load pt outer; dir ← slot; load dir inner.

(** Write [ptbr->outer_ptes[outer]->ptes[inner]]. *)
Definition pte_put (pt : pagetable) (outer inner : Z) (e : pte) : pagetable :=
  match load pt outer with
  | Some (Some dir) => store pt outer (Some (store dir inner e))
  | _ => pt
  end.

(** ** alloc_page *)

Definition alloc_page (m : machine) (fresh : nat → pte) (vpn rw : Z)
  : option (machine * Z) :=
  let outer := vpn / NR_PTES_PER_PAGE in
  let inner := vpn mod NR_PTES_PER_PAGE in
  slot ← load (ptbr m) outer;
  let pt1 :=
    match slot with
    | None => store (ptbr m) outer (Some (malloc_directory fresh))
    | Some _ => ptbr m
    end in
  e ← pte_at pt1 outer inner;
  let e1 := Pte true (writable e) (pfn e) (private e) in
  let e2 :=
    if decide (rw = RW_READ) then Pte (valid e1) false (pfn e1) RW_READ
    else if decide (rw = Z.lor RW_WRITE RW_READ)
         then Pte (valid e1) true (pfn e1) (private e1)
         else e1 in
  smallest_pfn ← find_smallest_pfn (mapcounts m);
  if decide (smallest_pfn = NR_PAGEFRAMES) then
    Some (set_ptbr (pte_put pt1 outer inner e2) m, u32 (-1))
  else
    c ← load (mapcounts m) smallest_pfn;
    let e3 := Pte (valid e2) (writable e2) smallest_pfn (private e2) in
    Some (set_mapcounts (store (mapcounts m) smallest_pfn (u32 (c + 1)))
            (set_ptbr (pte_put pt1 outer inner e3) m),
          smallest_pfn).

(** ** free_page *)

(** The loop at the end of [free_page]: at the first index below
    [tlbSize] whose entry carries [vpn], clear its [valid] flag, decrement
    [tlbSize] and return. *)
Fixpoint free_tlb_from (t : list tlb_entry) (size vpn : Z) (n : nat) (i : Z)
  : option (list tlb_entry * Z) :=
  match n with
  | O => Some (t, size)
  | S n' =>
      e ← load t i;
      if decide (tlb_vpn e = vpn)
      then Some (store t i (TlbEntry false (tlb_vpn e) (tlb_pfn e)), size - 1)
      else free_tlb_from t size vpn n' (i + 1)
  end.

Definition free_page (m : machine) (vpn : Z) : option machine :=
  let outer := vpn / NR_PTES_PER_PAGE in
  let inner := vpn mod NR_PTES_PER_PAGE in
  e ← pte_at (ptbr m) outer inner;
  c ← load (mapcounts m) (pfn e);
  let mc := store (mapcounts m) (pfn e) (u32 (c - 1)) in
  let e' := Pte false false 0 (private e) in
  '(t, size) ← free_tlb_from (tlb m) (tlbSize m) vpn (Z.to_nat (tlbSize m)) 0;
  Some (set_tlb t size
          (set_mapcounts mc (set_ptbr (pte_put (ptbr m) outer inner e') m))).

(** ** handle_page_fault *)

Definition handle_page_fault (m : machine) (vpn rw : Z)
  : option (machine * bool) :=
  let outer := vpn / NR_PTES_PER_PAGE in
  let inner := vpn mod NR_PTES_PER_PAGE in
  slot ← load (ptbr m) outer;
  match slot with
  | None => Some (m, false)
  | Some dir =>
      e ← load dir inner;
      if negb (valid e) then Some (m, false)
      else if negb (writable e) && bool_decide (Z.land rw RW_WRITE = RW_WRITE)
      then
        if decide (private e = RW_READ) then Some (m, false)
        else
          c ← load (mapcounts m) (pfn e);
          if decide (c = 1) then
            let e' := Pte (valid e) true (pfn e) (private e) in
            Some (set_ptbr (pte_put (ptbr m) outer inner e') m, true)
          else if decide (2 ≤ c) then
            let mc1 := store (mapcounts m) (pfn e) (u32 (c - 1)) in
            new ← find_smallest_pfn mc1;
            c' ← load mc1 new;
            let e' := Pte (valid e) true new (private e) in
            Some (set_mapcounts (store mc1 new (u32 (c' + 1)))
                    (set_ptbr (pte_put (ptbr m) outer inner e') m),
                  true)
          else Some (m, false)
      else Some (m, false)
  end.

(** ** switch_process *)

(** [memset(tlb, 0, sizeof(tlb))]: every entry of the array is zeroed;
    [tlbSize] is a separate global and is not touched. *)
Definition memset_tlb (t : list tlb_entry) : list tlb_entry :=
  (λ _, TlbEntry false 0 0) <$> t.

(** The search of [list_for_each_entry_safe]: the first process of the
    ready list whose pid is [pid'], and the list without it
    ([list_del_init]). *)
Fixpoint take_pid (pid' : Z) (ps : list process)
  : option (process * list process) :=
  match ps with
  | [] => None
  | p :: ps' =>
      if decide (pid p = pid') then Some (p, ps')
      else '(q, rest) ← take_pid pid' ps'; Some (q, p :: rest)
  end.

(** The body of the inner loop of the fork, on the parent's directory
    [pd], the child's directory [cd] and [mapcounts]. *)
Definition fork_pte (j : Z)
    (st : pte_directory * pte_directory * list Z)
  : option (pte_directory * pte_directory * list Z) :=
  let '(pd, cd, mc) := st in
  e ← load pd j;
  if valid e then
    let forkedPte := e in
    c ← load mc (pfn e);
    let mc := store mc (pfn e) (u32 (c + 1)) in
    let forkedPte :=
      if negb (writable e)
      then Pte (valid forkedPte) (writable forkedPte) (pfn forkedPte)
               (private e)
      else forkedPte in
    let pd := store pd j (Pte (valid e) false (pfn e) (private e)) in
    let forkedPte := Pte true false (pfn e) (private forkedPte) in
    Some (pd, store cd j forkedPte, mc)
  else Some st.

(** The body of the outer loop.  The child's directory is a fresh
    [malloc] block; [fresh i] is its uninitialised content. *)
Definition fork_directory (fresh : nat → nat → pte) (i : Z)
    (st : pagetable * pagetable * list Z)
  : option (pagetable * pagetable * list Z) :=
  let '(ppt, cpt, mc) := st in
  slot ← load ppt i;
  match slot with
  | None => Some st
  | Some pd =>
      let cd := malloc_directory (fresh (Z.to_nat i)) in
      '(pd', cd', mc') ←
        for_loop (Z.to_nat NR_PTES_PER_PAGE) 0 fork_pte (pd, cd, mc);
      Some (store ppt i (Some pd'), store cpt i (Some cd'), mc')
  end.

(** The page table inside a fresh [struct process]: [fresh_outer i] is
    what the uninitialised [outer_ptes[i]] happens to hold.  C gives no
    meaning to a read through such a pointer; here a slot that is not
    NULL is read as some directory. *)
Definition malloc_pagetable (fresh_outer : nat → option pte_directory)
  : pagetable :=
  fresh_outer <$> seq 0 (Z.to_nat NR_PTES_PER_PAGE).

Definition switch_process (m : machine)
    (fresh_outer : nat → option pte_directory) (fresh : nat → nat → pte)
    (pid' : Z) : option machine :=
  let t := memset_tlb (tlb m) in
  match take_pid pid' (processes m) with
  | Some (p, rest) =>
      Some (Machine t (tlbSize m) (mapcounts m) p (rest ++ [current m]))
  | None =>
      '(ppt, cpt, mc) ←
        for_loop (Z.to_nat NR_PTES_PER_PAGE) 0 (fork_directory fresh)
          (ptbr m, malloc_pagetable fresh_outer, mapcounts m);
      Some (Machine t (tlbSize m) mc (Process pid' cpt)
              (processes m ++ [Process (pid (current m)) ppt]))
  end.

(** ** Sequences of requests *)

Inductive request :=
| AllocPage (fresh : nat → pte) (vpn rw : Z)
| FreePage (vpn : Z)
| HandlePageFault (vpn rw : Z)
| SwitchProcess (fresh_outer : nat → option pte_directory)
                (fresh : nat → nat → pte) (pid' : Z)
| InsertTlb (vpn pfn' : Z)
| LookupTlb (vpn : Z).

Definition step (m : machine) (r : request) : option machine :=
  match r with
  | AllocPage fresh vpn rw => fst <$> alloc_page m fresh vpn rw
  | FreePage vpn => free_page m vpn
  | HandlePageFault vpn rw => fst <$> handle_page_fault m vpn rw
  | SwitchProcess fresh_outer fresh pid' =>
      switch_process m fresh_outer fresh pid'
  | InsertTlb vpn pfn' => insert_tlb m vpn pfn'
  | LookupTlb vpn => _ ← lookup_tlb m vpn; Some m
  end.

Fixpoint run (m : machine) (rs : list request) : option machine :=
  match rs with
  | [] => Some m
  | r :: rs' => m' ← step m r; run m' rs'
  end.

(** Modelled from the spec: the framework that defines the globals is
    not among the sources.  The root process has pid 0 and is created by
    the initializer with an empty page table; every frame is free, the
    TLB is empty and nothing waits in the ready list. *)
Definition init : machine :=
  Machine (replicate (Z.to_nat TLB_ENTRIES) (TlbEntry false 0 0)) 0
          (replicate (Z.to_nat NR_PAGEFRAMES) 0)
          (Process 0 (replicate (Z.to_nat NR_PTES_PER_PAGE) None))
          [].

(** A zero-filled block, as [calloc] would return. *)
Definition zero_pte : pte := Pte false false 0 0.
Definition zeroed : nat → pte := λ _, zero_pte.
Definition zeroed2 : nat → nat → pte := λ _ _, zero_pte.
Definition zeroed_outer : nat → option pte_directory := λ _, None.

(** ** Notions used by the statements *)

(** [f] is the numerically smallest frame whose count is 0. *)
Definition least_free (mc : list Z) (f : Z) : Prop :=
  load mc f = Some 0 ∧ ∀ g, 0 ≤ g < f → load mc g ≠ Some 0.

(** Every frame of the table has a nonzero count. *)
Definition all_frames_used (mc : list Z) : Prop :=
  ∀ g, load mc g ≠ Some 0.

(** The arrays of a page table have the size [vm.h] declares. *)
Definition wf_pagetable (pt : pagetable) : Prop :=
  length pt = Z.to_nat NR_PTES_PER_PAGE ∧
  Forall (λ slot,
            Forall (λ d : pte_directory,
                      length d = Z.to_nat NR_PTES_PER_PAGE)
                   (option_list slot)) pt.

(** [rw] asks for a write: [(rw & RW_WRITE) == RW_WRITE]. *)
Definition write_access (rw : Z) : Prop := Z.land rw RW_WRITE = RW_WRITE.

(** The entry of the running process that [vpn] addresses. *)
Definition current_pte (m : machine) (vpn : Z) : option pte :=
  pte_at (ptbr m) (vpn / NR_PTES_PER_PAGE) (vpn mod NR_PTES_PER_PAGE).

(** The page table once [alloc_page] has made sure the directory of
    [vpn] exists, and the entry of [vpn] in it before it is written. *)
Definition with_directory (pt : pagetable) (fresh : nat → pte) (vpn : Z)
  : pagetable :=
  match load pt (vpn / NR_PTES_PER_PAGE) with
  | Some None =>
      store pt (vpn / NR_PTES_PER_PAGE) (Some (malloc_directory fresh))
  | _ => pt
  end.

Definition alloc_target (m : machine) (fresh : nat → pte) (vpn : Z)
  : option pte :=
  pte_at (with_directory (ptbr m) fresh vpn)
         (vpn / NR_PTES_PER_PAGE) (vpn mod NR_PTES_PER_PAGE).

(** [vpn] is a page number of the two-level table. *)
Definition vpn_in_range (vpn : Z) : Prop :=
  0 < NR_PTES_PER_PAGE ∧ 0 ≤ vpn < NR_PTES_PER_PAGE * NR_PTES_PER_PAGE.

(** A write fault that copy-on-write can resolve: the entry is valid,
    write-protected and not tagged read-only. *)
Definition cow_fault (e : pte) (rw : Z) : Prop :=
  valid e = true ∧ writable e = false ∧ private e ≠ RW_READ ∧ write_access rw.

(** *** What a fork leaves behind *)

(** The parent's entry after the fork. *)
Definition protect (e : pte) : pte :=
  if valid e then Pte (valid e) false (pfn e) (private e) else e.

(** The child's entry: a copy of the parent's valid entry with [writable]
    cleared; where the parent's entry is not valid the child keeps
    whatever [c] the fresh block held. *)
Definition inherit (e c : pte) : pte :=
  if valid e then Pte true false (pfn e) (private e) else c.

Definition protect_slot (slot : option pte_directory)
  : option pte_directory :=
  fmap (M:=list) protect <$> slot.

Definition fork_parent (ppt : pagetable) : pagetable :=
  protect_slot <$> ppt.

(** The child's slot [i]: a fresh directory filled from the parent's, or,
    where the parent has none, whatever pointer [cslot] the fresh
    [struct process] held. *)
Definition inherit_slot (fresh : nat → nat → pte) (i : nat)
    (slot cslot : option pte_directory) : option pte_directory :=
  match slot with
  | None => cslot
  | Some pd => Some (zip_with inherit pd (malloc_directory (fresh i)))
  end.

(** The child's table for the parent's slots from index [i] on; [cpt] is
    the uninitialised table of the fresh [struct process]. *)
Fixpoint fork_child (fresh : nat → nat → pte) (i : nat)
    (ppt cpt : pagetable) : pagetable :=
  match ppt, cpt with
  | slot :: ppt', cslot :: cpt' =>
      inherit_slot fresh i slot cslot :: fork_child fresh (S i) ppt' cpt'
  | _, _ => cpt
  end.

(** One more mapping of a frame. *)
Definition bump (c : Z) : Z := u32 (c + 1).

(** The number of valid entries of [l] bound to frame [f]. *)
Fixpoint sharers (f : Z) (l : list pte) : nat :=
  match l with
  | [] => 0
  | e :: l' =>
      ((if valid e && bool_decide (pfn e = f) then 1 else 0) + sharers f l')%nat
  end.

(** All the entries of a page table, directory after directory. *)
Definition ptes_of (pt : pagetable) : list pte :=
  concat (default [] <$> pt).

(** The valid entries of [l] index [mc] within its bounds. *)
Definition frames_in_bounds (mc : list Z) (l : list pte) : Prop :=
  Forall (λ e, valid e = true → 0 ≤ pfn e < Z.of_nat (length mc)) l.

(** *** Read-only pages *)

(** An entry tagged read-only ([private == RW_READ]) is not writable. *)
Definition ro_pte (e : pte) : Prop := private e = RW_READ → writable e = false.

Definition ro_pagetable (pt : pagetable) : Prop :=
  Forall (λ slot, ∀ d : pte_directory, slot = Some d → Forall ro_pte d) pt.

(** Every entry of every process, running or ready. *)
Definition ro_machine (m : machine) : Prop :=
  ro_pagetable (ptbr m) ∧ Forall (λ p, ro_pagetable (pgtable p)) (processes m).

(** The requests under which the tag is kept: [alloc_page] does not ask
    for read-write access on an entry tagged read-only, and no fresh block
    holds an entry that is tagged read-only and writable (a zero-filled
    block holds none). *)
Definition ro_request (m : machine) (r : request) : Prop :=
  match r with
  | AllocPage fresh vpn rw =>
      (∀ j, ro_pte (fresh j)) ∧
      (rw ≠ RW_READ → rw = Z.lor RW_WRITE RW_READ →
       ∀ e, alloc_target m fresh vpn = Some e → private e ≠ RW_READ)
  | SwitchProcess fresh_outer fresh _ =>
      (∀ i d, fresh_outer i = Some d → Forall ro_pte d) ∧
      (∀ i j, ro_pte (fresh i j))
  | _ => True
  end.

(** The read-only tags of the running process's table are still there
    in [m']. *)
Definition tags_kept (m m' : machine) : Prop :=
  ∀ o i e, pte_at (ptbr m) o i = Some e → private e = RW_READ →
    ∃ e', pte_at (ptbr m') o i = Some e' ∧ private e' = RW_READ.

(** The requests that keep the running process running. *)
Definition same_process (r : request) : Prop :=
  match r with SwitchProcess _ _ _ => False | _ => True end.

Inductive ro_reachable : machine → Prop :=
| ro_reachable_init : ro_reachable init
| ro_reachable_step m r m' :
    ro_reachable m → ro_request m r → step m r = Some m' → ro_reachable m'.

(** *** The TLB as the lookups see it *)

(** What [lookup_tlb] reads of an entry: [valid] is not part of it. *)
Definition tlb_key (e : tlb_entry) : Z * Z := (tlb_vpn e, tlb_pfn e).

(** [tlbSize] counts slots of the array. *)
Definition tlb_in_bounds (m : machine) : Prop :=
  0 ≤ tlbSize m ≤ Z.of_nat (length (tlb m)).

(** *** Sizes *)

(** Every array of the machine has the size it was declared with, and
    [tlbSize] counts slots of [tlb]. *)
Definition wf_machine (m : machine) : Prop :=
  length (tlb m) = Z.to_nat TLB_ENTRIES ∧ tlb_in_bounds m ∧
  length (mapcounts m) = Z.to_nat NR_PAGEFRAMES ∧
  wf_pagetable (ptbr m) ∧
  Forall (λ p, wf_pagetable (pgtable p)) (processes m).

(** The uninitialised [outer_ptes] of a fresh [struct process] are read
    as NULL or as directories of the declared size. *)
Definition sized_request (r : request) : Prop :=
  match r with
  | SwitchProcess fresh_outer _ _ =>
      ∀ i (d : pte_directory),
        fresh_outer i = Some d → length d = Z.to_nat NR_PTES_PER_PAGE
  | _ => True
  end.

(** *** Counting the mappings of a frame *)






(** The machine after a sequence of requests on the initial one. *)
Definition after (rs : list request) : machine := default init (run init rs).

(** A read-write page at vpn 0 shared by a parent (pid 0) and its child
    (pid 1, running). *)
Definition shared_page : list request :=
  [AllocPage zeroed 0 (Z.lor RW_WRITE RW_READ);
   SwitchProcess zeroed_outer zeroed2 1].

(** The child then frees the page and the parent resumes: the parent's
    entry is still write-protected, and its frame has one mapping left. *)
Definition sole_owner : list request :=
  shared_page ++ [FreePage 0; SwitchProcess zeroed_outer zeroed2 0].

(** Two pages mapped and cached, vpn 1 first. *)
Definition two_cached : list request :=
  [AllocPage zeroed 1 (Z.lor RW_WRITE RW_READ);
   AllocPage zeroed 2 (Z.lor RW_WRITE RW_READ);
   InsertTlb 1 0; InsertTlb 2 1].

(** Read-write pages at vpn 0, 1, ... until every frame is taken. *)
Definition exhaust_frames : list request :=
  (λ vpn, AllocPage zeroed vpn (Z.lor RW_WRITE RW_READ))
    <$> seqZ 0 NR_PAGEFRAMES.

End pa3.

(** The configuration of the course framework this file was written
    for: 16 entries per level, 128 frames, RW_READ = 1, RW_WRITE = 2. *)
Definition framework : vm_h :=
  {| NR_PAGEFRAMES := 128; PTES_PER_PAGE_SHIFT := 4; NR_PTES_PER_PAGE := 16;
     RW_READ := 1; RW_WRITE := 2 |}.

(** * Properties *)

(** ** Arrays *)

Section arrays.
Context {A : Type}.
Implicit Types (a : list A) (i j : Z) (x : A).

Lemma load_Some a i x :
  load a i = Some x ↔ 0 ≤ i ∧ a !! Z.to_nat i = Some x.
Proof.
  unfold load. destruct (decide (0 ≤ i)); [tauto|].
  split; [done|tauto].
Qed.

Lemma load_bounds a i x : load a i = Some x → 0 ≤ i < Z.of_nat (length a).
Proof.
  rewrite load_Some. intros [? Hx]. apply lookup_lt_Some in Hx. lia.
Qed.

Lemma load_is_Some a i : 0 ≤ i < Z.of_nat (length a) → is_Some (load a i).
Proof.
  intros ?. unfold load. rewrite decide_True by lia.
  apply lookup_lt_is_Some. lia.
Qed.

Lemma load_None a i : Z.of_nat (length a) ≤ i → load a i = None.
Proof.
  intros ?. unfold load. case_decide; [|done].
  apply lookup_ge_None. lia.
Qed.

Lemma length_store a i x : length (store a i x) = length a.
Proof. apply length_insert. Qed.

Lemma load_store_eq a i x :
  0 ≤ i < Z.of_nat (length a) → load (store a i x) i = Some x.
Proof.
  intros ?. unfold load, store. rewrite decide_True by lia.
  apply list_lookup_insert_eq. lia.
Qed.

Lemma load_store_ne a i j x :
  0 ≤ i → i ≠ j → load (store a i x) j = load a j.
Proof.
  intros ??. unfold load, store. case_decide; [|done].
  apply list_lookup_insert_ne. lia.
Qed.

Lemma load_store a i j x y :
  load a i = Some y →
  load (store a i x) j = if decide (i = j) then Some x else load a j.
Proof.
  intros Hi. pose proof (load_bounds _ _ _ Hi). case_decide; subst.
  - by apply load_store_eq.
  - apply load_store_ne; lia.
Qed.

End arrays.

(** ** Counted loops *)

Lemma load_fmap {A B} (g : A → B) (a : list A) i :
  load (g <$> a) i = g <$> load a i.
Proof. unfold load. case_decide; [apply list_lookup_fmap|done]. Qed.

Lemma store_id {A} (a : list A) i x : load a i = Some x → store a i x = a.
Proof. rewrite load_Some. intros [_ ?]. by apply list_insert_id. Qed.

Lemma load_of_nat {A} (a : list A) (k : nat) : load a (Z.of_nat k) = a !! k.
Proof. unfold load. rewrite decide_True by lia. by rewrite Nat2Z.id. Qed.

Lemma load_middle {A} (l1 l2 : list A) x :
  load (l1 ++ x :: l2) (Z.of_nat (length l1)) = Some x.
Proof. rewrite load_of_nat. by apply list_lookup_middle. Qed.

Lemma store_middle {A} (l1 l2 : list A) x y :
  store (l1 ++ x :: l2) (Z.of_nat (length l1)) y = l1 ++ y :: l2.
Proof.
  unfold store. rewrite Nat2Z.id, insert_app_r_alt by done.
  by rewrite Nat.sub_diag.
Qed.

Lemma for_loop_S {S} n i (body : Z → S → option S) s :
  for_loop (Datatypes.S n) i body s = s' ← body i s; for_loop n (i + 1) body s'.
Proof. done. Qed.

Lemma iter_bump_comm {A} (g : A → A) n x :
  Nat.iter n g (g x) = g (Nat.iter n g x).
Proof. induction n as [|n IH]; simpl; [done|]. by rewrite IH. Qed.

Section pa3_properties.
Context `{vm_h}.
Implicit Types (m : machine) (pt : pagetable) (mc : list Z) (e : pte).

(** ** find_smallest_pfn *)

Lemma find_smallest_pfn_from_cases mc n i :
  0 ≤ i → Z.of_nat (length mc) = i + Z.of_nat n →
  (∃ f, find_smallest_pfn_from mc n i = Some f ∧ i ≤ f < i + Z.of_nat n ∧
        load mc f = Some 0 ∧ ∀ g, i ≤ g < f → load mc g ≠ Some 0) ∨
  (find_smallest_pfn_from mc n i = Some NR_PAGEFRAMES ∧
   ∀ g, i ≤ g → load mc g ≠ Some 0).
Proof.
  revert i. induction n as [|n IH]; intros i Hi Hlen; simpl.
  - right. split; [done|]. intros g Hg. rewrite load_None; [done|lia].
  - destruct (load_is_Some mc i) as [c Hc]; [lia|]. rewrite Hc. simpl.
    case_decide as Hz.
    + left. exists i. subst c. split_and!; [done|lia|lia|done|intros; lia].
    + destruct (IH (i + 1)) as [(f & Hf & Hr & Hf0 & Hmin)|[Hf Hall]];
        [lia|lia| |].
      * left. exists f. split_and!; [done|lia|lia|done|].
        intros g Hg. destruct (decide (g = i)) as [->|]; [congruence|].
        apply Hmin. lia.
      * right. split; [done|]. intros g Hg.
        destruct (decide (g = i)) as [->|]; [congruence|]. apply Hall. lia.
Qed.

Lemma find_smallest_pfn_cases mc :
  0 ≤ NR_PAGEFRAMES → length mc = Z.to_nat NR_PAGEFRAMES →
  (∃ f, find_smallest_pfn mc = Some f ∧ 0 ≤ f < NR_PAGEFRAMES ∧
        least_free mc f) ∨
  (find_smallest_pfn mc = Some NR_PAGEFRAMES ∧ all_frames_used mc).
Proof.
  intros Hnr Hlen. unfold find_smallest_pfn, least_free, all_frames_used.
  destruct (find_smallest_pfn_from_cases mc (Z.to_nat NR_PAGEFRAMES) 0)
    as [(f & Hf & Hr & Hf0 & Hmin)|[Hf Hall]]; [lia..| |].
  - left. exists f. split_and!; [done|lia|lia|done|done].
  - right. split; [done|]. intros g Hg.
    apply load_bounds in Hg as Hb. by apply (Hall g); [lia|].
Qed.

Lemma least_free_unique mc f g : least_free mc f → least_free mc g → f = g.
Proof.
  intros [Hf Hfm] [Hg Hgm].
  apply load_bounds in Hf as ?. apply load_bounds in Hg as ?.
  destruct (Z.lt_trichotomy f g) as [?|[?|?]]; [|done|].
  - destruct (Hgm f); [lia|done].
  - destruct (Hfm g); [lia|done].
Qed.

Lemma find_smallest_pfn_least mc f :
  0 ≤ NR_PAGEFRAMES → length mc = Z.to_nat NR_PAGEFRAMES →
  least_free mc f → find_smallest_pfn mc = Some f.
Proof.
  intros Hnr Hlen Hf.
  destruct (find_smallest_pfn_cases mc Hnr Hlen) as [(g & -> & _ & Hg)|[_ Hall]].
  - f_equal. by eapply least_free_unique.
  - destruct Hf as [Hf _]. by destruct (Hall f).
Qed.

Lemma find_smallest_pfn_full mc :
  0 ≤ NR_PAGEFRAMES → length mc = Z.to_nat NR_PAGEFRAMES →
  all_frames_used mc → find_smallest_pfn mc = Some NR_PAGEFRAMES.
Proof.
  intros Hnr Hlen Hall.
  destruct (find_smallest_pfn_cases mc Hnr Hlen) as [(g & _ & _ & Hg & _)|[? _]];
    [|done].
  by destruct (Hall g).
Qed.

(** ** Page table access *)

Lemma pte_at_put_eq pt o i e e' :
  pte_at pt o i = Some e → pte_at (pte_put pt o i e') o i = Some e'.
Proof.
  unfold pte_at, pte_put. intros He.
  destruct (load pt o) as [[d|]|] eqn:Ho; simplify_eq/=.
  rewrite (load_store_eq pt) by by eapply load_bounds.
  simpl. apply load_store_eq. by eapply load_bounds.
Qed.

Lemma pte_at_put_ne pt o i o' i' e e' :
  pte_at pt o i = Some e → (o', i') ≠ (o, i) →
  pte_at (pte_put pt o i e') o' i' = pte_at pt o' i'.
Proof.
  unfold pte_at, pte_put. intros He Hne.
  destruct (load pt o) as [[d|]|] eqn:Ho; simplify_eq/=.
  rewrite (load_store pt o o' _ (Some d)) by done.
  case_decide as Hoo; [|done]. subst o'. rewrite Ho. simpl.
  rewrite (load_store d i i' _ e) by done.
  case_decide; [congruence|done].
Qed.

Lemma ptbr_set_ptbr pt m : ptbr (set_ptbr pt m) = pt.
Proof. done. Qed.

Lemma ptbr_set_mapcounts mc m : ptbr (set_mapcounts mc m) = ptbr m.
Proof. done. Qed.

Lemma length_malloc_directory fresh :
  length (malloc_directory fresh) = Z.to_nat NR_PTES_PER_PAGE.
Proof. unfold malloc_directory. by rewrite length_fmap, length_seq. Qed.

Lemma vpn_split vpn :
  vpn_in_range vpn →
  0 ≤ vpn / NR_PTES_PER_PAGE < NR_PTES_PER_PAGE ∧
  0 ≤ vpn mod NR_PTES_PER_PAGE < NR_PTES_PER_PAGE.
Proof.
  unfold vpn_in_range. intros (Hnr & Hlo & Hhi).
  split; [|by apply Z.mod_pos_bound].
  split; [by apply Z.div_pos|]. by apply Z.div_lt_upper_bound.
Qed.

Lemma wf_pagetable_dirs pt :
  wf_pagetable pt →
  length pt = Z.to_nat NR_PTES_PER_PAGE ∧
  Forall (λ slot, ∀ d : pte_directory,
            slot = Some d → length d = Z.to_nat NR_PTES_PER_PAGE) pt.
Proof.
  intros [Hlen Hall]. split; [done|].
  apply Forall_lookup. intros i slot Hi d ->.
  pose proof (Forall_lookup_1 _ _ _ _ Hall Hi) as Hslot.
  by apply Forall_cons_1 in Hslot as [? _].
Qed.

Lemma wf_pagetable_slot pt o :
  wf_pagetable pt → 0 ≤ o < NR_PTES_PER_PAGE →
  ∃ slot, load pt o = Some slot ∧
    ∀ d : pte_directory, slot = Some d → length d = Z.to_nat NR_PTES_PER_PAGE.
Proof.
  intros [Hlen Hall]%wf_pagetable_dirs Ho.
  destruct (load_is_Some pt o) as [slot Hslot]; [lia|].
  exists slot. split; [done|].
  apply load_Some in Hslot as [_ Hslot].
  by apply (proj1 (Forall_lookup _ _) Hall _ _ Hslot).
Qed.

(** With arrays of the declared size, [alloc_page] finds an entry for
    every page number in range. *)
Lemma alloc_target_defined m fresh vpn :
  wf_pagetable (ptbr m) → vpn_in_range vpn →
  ∃ slot e, load (ptbr m) (vpn / NR_PTES_PER_PAGE) = Some slot ∧
    alloc_target m fresh vpn = Some e.
Proof.
  intros Hwf Hvpn. apply vpn_split in Hvpn as [Ho Hi].
  destruct (wf_pagetable_slot _ _ Hwf Ho) as (slot & Hslot & Hd).
  unfold alloc_target, with_directory, pte_at. rewrite Hslot.
  destruct slot as [d|].
  - destruct (load_is_Some d (vpn mod NR_PTES_PER_PAGE)) as [e He].
    { rewrite (Hd d) by done. lia. }
    exists (Some d), e. rewrite Hslot. by simpl.
  - rewrite load_store_eq by by eapply load_bounds. simpl.
    destruct (load_is_Some (malloc_directory fresh)
                (vpn mod NR_PTES_PER_PAGE)) as [e He].
    { rewrite length_malloc_directory. lia. }
    by exists None, e.
Qed.

(** [alloc_page], step by step, once its entry is known. *)
Lemma alloc_page_unfold m fresh vpn rw e :
  alloc_target m fresh vpn = Some e →
  alloc_page m fresh vpn rw =
    let pt1 := with_directory (ptbr m) fresh vpn in
    let o := vpn / NR_PTES_PER_PAGE in
    let i := vpn mod NR_PTES_PER_PAGE in
    let e2 :=
      if decide (rw = RW_READ) then Pte true false (pfn e) RW_READ
      else if decide (rw = Z.lor RW_WRITE RW_READ)
           then Pte true true (pfn e) (private e)
           else Pte true (writable e) (pfn e) (private e) in
    smallest_pfn ← find_smallest_pfn (mapcounts m);
    if decide (smallest_pfn = NR_PAGEFRAMES) then
      Some (set_ptbr (pte_put pt1 o i e2) m, u32 (-1))
    else
      c ← load (mapcounts m) smallest_pfn;
      Some (set_mapcounts (store (mapcounts m) smallest_pfn (u32 (c + 1)))
              (set_ptbr (pte_put pt1 o i
                           (Pte true (writable e2) smallest_pfn (private e2)))
                 m),
            smallest_pfn).
Proof.
  unfold alloc_target, with_directory, alloc_page. intros He.
  destruct (load (ptbr m) _) as [[d|]|] eqn:Hslot; simpl.
  - rewrite He. simpl. by repeat case_decide.
  - rewrite He. simpl. by repeat case_decide.
  - unfold pte_at in He. by rewrite Hslot in He.
Qed.

(** ** alloc_page *)

(** C4: when some frame has count 0, [alloc_page] binds the numerically
    smallest such frame to the entry of [vpn], returns its number and
    takes its count from 0 to 1; when every frame has a nonzero count it
    returns (unsigned) -1.  The operation is a function of the machine
    and its arguments. *)
Theorem alloc_page_smallest_free m fresh vpn rw :
  wf_pagetable (ptbr m) → vpn_in_range vpn →
  0 ≤ NR_PAGEFRAMES → length (mapcounts m) = Z.to_nat NR_PAGEFRAMES →
  ((∃ g, load (mapcounts m) g = Some 0) →
     ∃ f m' e', least_free (mapcounts m) f ∧
       alloc_page m fresh vpn rw = Some (m', f) ∧
       current_pte m' vpn = Some e' ∧ valid e' = true ∧ pfn e' = f ∧
       load (mapcounts m') f = Some 1 ∧
       ∀ g, g ≠ f → load (mapcounts m') g = load (mapcounts m) g) ∧
  (all_frames_used (mapcounts m) →
     ∃ m', alloc_page m fresh vpn rw = Some (m', u32 (-1))).
Proof.
  intros Hwf Hvpn Hnr Hlen.
  destruct (alloc_target_defined m fresh vpn Hwf Hvpn) as (slot & e & _ & He).
  rewrite (alloc_page_unfold _ _ _ _ _ He). simpl. split.
  - intros [g Hg].
    destruct (find_smallest_pfn_cases _ Hnr Hlen)
      as [(f & Hfind & Hfr & Hf)|[_ Hall]]; [|by destruct (Hall g)].
    rewrite Hfind. simpl. rewrite decide_False by lia.
    pose proof Hf as [Hf0 _]. rewrite Hf0. simpl.
    eexists f, _, _. split_and!; [done|done| | | | |].
    + unfold current_pte. rewrite ptbr_set_mapcounts, ptbr_set_ptbr.
      by eapply pte_at_put_eq.
    + done.
    + done.
    + simpl. apply load_store_eq. by eapply load_bounds.
    + intros g' Hne. simpl. apply load_store_ne; [|done].
      by eapply load_bounds.
  - intros Hall. rewrite find_smallest_pfn_full by done. simpl.
    rewrite decide_True by done. by eexists.
Qed.

(** C9: when [alloc_page] returns (unsigned) -1 because no frame is
    free, [mapcounts] and the TLB are as before, but the entry of [vpn]
    has been written all the same: it is valid, its permission bits follow
    [rw], and its directory has been created when it was missing. *)
Theorem alloc_page_out_of_memory m fresh vpn rw :
  wf_pagetable (ptbr m) → vpn_in_range vpn →
  0 ≤ NR_PAGEFRAMES → length (mapcounts m) = Z.to_nat NR_PAGEFRAMES →
  all_frames_used (mapcounts m) →
  ∃ m' e e', alloc_page m fresh vpn rw = Some (m', u32 (-1)) ∧
    mapcounts m' = mapcounts m ∧ tlb m' = tlb m ∧ tlbSize m' = tlbSize m ∧
    alloc_target m fresh vpn = Some e ∧
    current_pte m' vpn = Some e' ∧
    valid e' = true ∧ pfn e' = pfn e ∧
    (rw = RW_READ → writable e' = false ∧ private e' = RW_READ) ∧
    (rw ≠ RW_READ → rw = Z.lor RW_WRITE RW_READ →
       writable e' = true ∧ private e' = private e) ∧
    (rw ≠ RW_READ → rw ≠ Z.lor RW_WRITE RW_READ →
       writable e' = writable e ∧ private e' = private e) ∧
    (load (ptbr m) (vpn / NR_PTES_PER_PAGE) = Some None →
       load (ptbr m') (vpn / NR_PTES_PER_PAGE) =
         Some (Some (store (malloc_directory fresh)
                       (vpn mod NR_PTES_PER_PAGE) e'))).
Proof.
  intros Hwf Hvpn Hnr Hlen Hall.
  destruct (alloc_target_defined m fresh vpn Hwf Hvpn) as (slot & e & _ & He).
  rewrite (alloc_page_unfold _ _ _ _ _ He). simpl.
  rewrite find_smallest_pfn_full by done. simpl.
  rewrite decide_True by done.
  eexists _, e, _. do 5 (split; [done|]). split.
  { unfold current_pte. rewrite ptbr_set_ptbr. by eapply pte_at_put_eq. }
  split_and!.
  - by repeat case_decide.
  - by repeat case_decide.
  - intros ->. by rewrite decide_True.
  - intros ? ->. rewrite decide_False by done. by rewrite decide_True.
  - intros ??. by rewrite !decide_False.
  - intros Hnull. rewrite ptbr_set_ptbr.
    unfold with_directory, pte_put. rewrite Hnull.
    assert (0 ≤ vpn / NR_PTES_PER_PAGE < Z.of_nat (length (ptbr m))) as Ho
      by by eapply load_bounds.
    rewrite load_store_eq by done.
    rewrite load_store_eq by by rewrite length_store.
    done.
Qed.

(** ** handle_page_fault *)

(** The copy-on-write duplication when a frame is free once the shared
    frame has been released: the lowest free frame [f] is bound. *)
Lemma handle_page_fault_cow m vpn rw e c f :
  let mc1 := store (mapcounts m) (pfn e) (u32 (c - 1)) in
  current_pte m vpn = Some e → cow_fault e rw →
  load (mapcounts m) (pfn e) = Some c → 2 ≤ c →
  0 ≤ NR_PAGEFRAMES → length (mapcounts m) = Z.to_nat NR_PAGEFRAMES →
  least_free mc1 f →
  handle_page_fault m vpn rw =
    Some (set_mapcounts (store mc1 f (u32 (0 + 1)))
            (set_ptbr (pte_put (ptbr m) (vpn / NR_PTES_PER_PAGE)
                         (vpn mod NR_PTES_PER_PAGE)
                         (Pte true true f (private e))) m), true).
Proof.
  intros mc1 He (Hv & Hw & Hp & Hrw) Hc Hc2 Hnr Hlen Hf.
  unfold current_pte, pte_at in He. unfold handle_page_fault.
  destruct (load (ptbr m) _) as [[d|]|]; simplify_eq/=.
  rewrite He. simpl. rewrite Hv, Hw. simpl.
  rewrite bool_decide_eq_true_2 by done.
  rewrite decide_False by done. rewrite Hc. simpl.
  rewrite decide_False by lia. rewrite decide_True by done.
  fold mc1. rewrite (find_smallest_pfn_least mc1 f); [|done| |done].
  - simpl. by destruct Hf as [-> _].
  - unfold mc1. by rewrite length_store.
Qed.

(** C8: when the outer slot of [vpn] is NULL, or the entry of [vpn] is
    not valid, [handle_page_fault] returns false and hands back the
    machine it was given: page table, [mapcounts] and TLB are unchanged. *)
Theorem handle_page_fault_unmapped m vpn rw :
  load (ptbr m) (vpn / NR_PTES_PER_PAGE) = Some None ∨
  (∃ e, current_pte m vpn = Some e ∧ valid e = false) →
  handle_page_fault m vpn rw = Some (m, false).
Proof.
  unfold current_pte, pte_at, handle_page_fault.
  intros [Hnull|(e & He & Hv)].
  - by rewrite Hnull.
  - destruct (load (ptbr m) _) as [[d|]|]; simplify_eq/=.
    rewrite He. simpl. by rewrite Hv.
Qed.

(** The sole-owner branch (lines 250-253), on the test the code makes: a
    write fault on a valid, write-protected entry whose [private] field is
    not [RW_READ] and whose frame has count exactly 1 returns true and
    only sets [writable] on that entry: same frame, same [mapcounts],
    every other entry of every process as before.  Whether [private]
    tells the permission the page was allocated with is another matter,
    settled on a run of the framework's configuration below. *)
Theorem handle_page_fault_sole_owner m vpn rw e :
  current_pte m vpn = Some e → cow_fault e rw →
  load (mapcounts m) (pfn e) = Some 1 →
  ∃ m', handle_page_fault m vpn rw = Some (m', true) ∧
    current_pte m' vpn = Some (Pte true true (pfn e) (private e)) ∧
    (∀ o i, (o, i) ≠ (vpn / NR_PTES_PER_PAGE, vpn mod NR_PTES_PER_PAGE) →
            pte_at (ptbr m') o i = pte_at (ptbr m) o i) ∧
    mapcounts m' = mapcounts m ∧
    processes m' = processes m ∧
    pid (current m') = pid (current m) ∧
    tlb m' = tlb m ∧ tlbSize m' = tlbSize m.
Proof.
  intros He (Hv & Hw & Hp & Hrw) Hc. eexists. split.
  - unfold current_pte, pte_at in He. unfold handle_page_fault.
    destruct (load (ptbr m) _) as [[d|]|]; simplify_eq/=.
    rewrite He. simpl. rewrite Hv, Hw. simpl.
    rewrite bool_decide_eq_true_2 by done.
    rewrite decide_False by done. by rewrite Hc.
  - unfold current_pte in *. rewrite ptbr_set_ptbr. split_and!; try done.
    + by eapply pte_at_put_eq.
    + intros o i Hne. by eapply pte_at_put_ne.
Qed.

(** C10: in the copy-on-write branch (valid entry, write asked, not
    writable, not tagged read-only, count of the bound frame at least 2),
    if some frame has count 0 once the shared frame's count has been
    decremented, the handler runs with every [mapcounts] index in bounds
    and binds a frame number below NR_PAGEFRAMES, the lowest free one.
    The branch has no out-of-memory test: when no frame is free it
    indexes [mapcounts] at NR_PAGEFRAMES, outside the array. *)
Theorem handle_page_fault_cow_bounds m vpn rw e c :
  let mc1 := store (mapcounts m) (pfn e) (u32 (c - 1)) in
  current_pte m vpn = Some e → cow_fault e rw →
  load (mapcounts m) (pfn e) = Some c → 2 ≤ c →
  0 ≤ NR_PAGEFRAMES → length (mapcounts m) = Z.to_nat NR_PAGEFRAMES →
  ((∃ g, load mc1 g = Some 0) →
     ∃ m' e', handle_page_fault m vpn rw = Some (m', true) ∧
       current_pte m' vpn = Some e' ∧
       0 ≤ pfn e < NR_PAGEFRAMES ∧ 0 ≤ pfn e' < NR_PAGEFRAMES ∧
       least_free mc1 (pfn e')) ∧
  (all_frames_used mc1 →
     find_smallest_pfn mc1 = Some NR_PAGEFRAMES ∧
     load mc1 NR_PAGEFRAMES = None ∧
     handle_page_fault m vpn rw = None).
Proof.
  intros mc1 He Hcow Hc Hc2 Hnr Hlen.
  assert (length mc1 = Z.to_nat NR_PAGEFRAMES) as Hlen1
    by (unfold mc1; by rewrite length_store).
  split.
  - intros [g Hg].
    destruct (find_smallest_pfn_cases mc1 Hnr Hlen1)
      as [(f & _ & Hfr & Hf)|[_ Hall]]; [|by destruct (Hall g)].
    eexists _, _. split; [by eapply handle_page_fault_cow|].
    unfold current_pte in *. rewrite ptbr_set_mapcounts, ptbr_set_ptbr.
    split; [by eapply pte_at_put_eq|]. simpl. split_and!; try done; try lia.
    all: apply load_bounds in Hc; lia.
  - intros Hall.
    pose proof (find_smallest_pfn_full mc1 Hnr Hlen1 Hall) as Hfull.
    assert (load mc1 NR_PAGEFRAMES = None) as Hout by (apply load_None; lia).
    split_and!; [done..|].
    destruct Hcow as (Hv & Hw & Hp & Hrw).
    unfold current_pte, pte_at in He. unfold handle_page_fault.
    destruct (load (ptbr m) _) as [[d|]|]; simplify_eq/=.
    rewrite He. simpl. rewrite Hv, Hw. simpl.
    rewrite bool_decide_eq_true_2 by done.
    rewrite decide_False by done. rewrite Hc. simpl.
    rewrite decide_False by lia. rewrite decide_True by done.
    fold mc1. rewrite Hfull. simpl. by rewrite Hout.
Qed.

(** ** The fork of switch_process *)

Lemma fork_pte_step j (pd cd : pte_directory) mc e c0 :
  load pd j = Some e → load cd j = Some c0 →
  (valid e = true → is_Some (load mc (pfn e))) →
  ∃ mc', fork_pte j (pd, cd, mc) =
           Some (store pd j (protect e), store cd j (inherit e c0), mc') ∧
    length mc' = length mc ∧
    ∀ f c, load mc f = Some c →
      load mc' f =
        Some (Nat.iter (if valid e && bool_decide (pfn e = f) then 1 else 0)
                       bump c).
Proof.
  intros He Hc0 Hc. unfold fork_pte, protect, inherit. rewrite He. simpl.
  destruct (valid e) eqn:Hv.
  - destruct Hc as [c Hc]; [done|]. rewrite Hc. simpl.
    eexists. split_and!.
    + by destruct (writable e).
    + by rewrite length_store.
    + intros f c' Hf. rewrite (load_store _ _ _ _ _ Hc).
      case_decide as Hpf.
      * rewrite bool_decide_eq_true_2 by done. by simplify_eq.
      * rewrite bool_decide_eq_false_2 by done. done.
  - exists mc. split_and!; [|done..].
    by rewrite !store_id.
Qed.

(** The inner loop, with the entries before index [length pre_p] already
    treated. *)
Lemma fork_pte_loop_from (pre_p pre_c ps cs : pte_directory) mc :
  length pre_c = length pre_p → length cs = length ps →
  frames_in_bounds mc ps →
  ∃ mc', for_loop (length ps) (Z.of_nat (length pre_p)) fork_pte
           (pre_p ++ ps, pre_c ++ cs, mc) =
         Some (pre_p ++ (protect <$> ps),
               pre_c ++ zip_with inherit ps cs, mc') ∧
    length mc' = length mc ∧
    ∀ f c, load mc f = Some c →
      load mc' f = Some (Nat.iter (sharers f ps) bump c).
Proof.
  revert pre_p pre_c cs mc.
  induction ps as [|e ps IH]; intros pre_p pre_c cs mc Hpre Hcs Hb.
  - destruct cs; [|done]. by exists mc.
  - destruct cs as [|c0 cs]; [done|]. simpl in Hcs.
    unfold frames_in_bounds in Hb. apply Forall_cons_1 in Hb as [He Hb].
    change (length (e :: ps)) with (S (length ps)). rewrite for_loop_S.
    destruct (fork_pte_step (Z.of_nat (length pre_p)) (pre_p ++ e :: ps)
                (pre_c ++ c0 :: cs) mc e c0) as (mc1 & -> & Hlen1 & Hmc1).
    { apply load_middle. }
    { rewrite <-Hpre. apply load_middle. }
    { intros Hv. apply load_is_Some. auto. }
    simpl. rewrite store_middle. rewrite <-Hpre. rewrite store_middle.
    rewrite Hpre.
    destruct (IH (pre_p ++ [protect e]) (pre_c ++ [inherit e c0]) cs mc1)
      as (mc' & Hloop & Hlen' & Hmc').
    { by rewrite !length_app, Hpre. }
    { lia. }
    { unfold frames_in_bounds. by rewrite Hlen1. }
    exists mc'. split_and!.
    + rewrite length_app, Nat2Z.inj_add in Hloop.
      change (Z.of_nat (length [protect e])) with 1 in Hloop.
      rewrite <-!app_assoc in Hloop. simpl in Hloop. by rewrite Hloop.
    + lia.
    + intros f c Hf. rewrite (Hmc' f _ (Hmc1 f c Hf)). f_equal. simpl.
      destruct (valid e && bool_decide (pfn e = f)); simpl; [|done].
      by rewrite iter_bump_comm.
Qed.

Lemma fork_pte_loop (pd cd : pte_directory) mc :
  length pd = Z.to_nat NR_PTES_PER_PAGE → length cd = length pd →
  frames_in_bounds mc pd →
  ∃ mc', for_loop (Z.to_nat NR_PTES_PER_PAGE) 0 fork_pte (pd, cd, mc) =
         Some (protect <$> pd, zip_with inherit pd cd, mc') ∧
    length mc' = length mc ∧
    ∀ f c, load mc f = Some c →
      load mc' f = Some (Nat.iter (sharers f pd) bump c).
Proof.
  intros Hpd Hcd Hb. rewrite <-Hpd.
  by apply (fork_pte_loop_from [] [] pd cd mc).
Qed.

(** Without wrap-around, [k] more mappings add [k] to a count. *)
Lemma iter_bump_no_wrap c (k : nat) :
  0 ≤ c → c + Z.of_nat k < 2 ^ 32 →
  Nat.iter k bump c = c + Z.of_nat k.
Proof.
  intros Hc. induction k as [|k IH]; intros Hk; simpl; [lia|].
  rewrite IH by lia. unfold bump, u32. rewrite Z.mod_small; lia.
Qed.

Lemma sharers_app f (l1 l2 : list pte) :
  sharers f (l1 ++ l2) = (sharers f l1 + sharers f l2)%nat.
Proof. induction l1 as [|e l1 IH]; simpl; [done|]. rewrite IH. lia. Qed.

Lemma ptes_of_cons (slot : option pte_directory) (pt : pagetable) :
  ptes_of (slot :: pt) = default [] slot ++ ptes_of pt.
Proof. done. Qed.

Lemma fork_directory_step fresh (i : nat) (ppt cpt : pagetable) mc slot cslot :
  load ppt (Z.of_nat i) = Some slot → load cpt (Z.of_nat i) = Some cslot →
  (∀ d : pte_directory, slot = Some d → length d = Z.to_nat NR_PTES_PER_PAGE) →
  frames_in_bounds mc (default [] slot) →
  ∃ mc', fork_directory fresh (Z.of_nat i) (ppt, cpt, mc) =
           Some (store ppt (Z.of_nat i) (protect_slot slot),
                 store cpt (Z.of_nat i) (inherit_slot fresh i slot cslot),
                 mc') ∧
    length mc' = length mc ∧
    ∀ f c, load mc f = Some c →
      load mc' f = Some (Nat.iter (sharers f (default [] slot)) bump c).
Proof.
  intros Hslot Hcslot Hwf Hb. unfold fork_directory. rewrite Hslot. simpl.
  destruct slot as [pd|]; simpl.
  - rewrite Nat2Z.id.
    destruct (fork_pte_loop pd (malloc_directory (fresh i)) mc)
      as (mc1 & -> & Hlen1 & Hmc1).
    { by apply Hwf. }
    { rewrite length_malloc_directory. symmetry. by apply Hwf. }
    { done. }
    by exists mc1.
  - exists mc. by rewrite !store_id.
Qed.

(** The outer loop, with the slots before index [length pre_p] already
    treated. *)
Lemma fork_directory_loop_from fresh (pre_p pre_c slots cslots : pagetable) mc :
  length pre_c = length pre_p → length cslots = length slots →
  Forall (λ slot, ∀ d : pte_directory,
            slot = Some d → length d = Z.to_nat NR_PTES_PER_PAGE) slots →
  frames_in_bounds mc (ptes_of slots) →
  ∃ mc', for_loop (length slots) (Z.of_nat (length pre_p))
           (fork_directory fresh) (pre_p ++ slots, pre_c ++ cslots, mc) =
         Some (pre_p ++ fork_parent slots,
               pre_c ++ fork_child fresh (length pre_p) slots cslots, mc') ∧
    length mc' = length mc ∧
    ∀ f c, load mc f = Some c →
      load mc' f = Some (Nat.iter (sharers f (ptes_of slots)) bump c).
Proof.
  revert pre_p pre_c cslots mc.
  induction slots as [|slot slots IH];
    intros pre_p pre_c cslots mc Hpre Hcs Hwf Hb.
  - destruct cslots; [|done]. by exists mc.
  - destruct cslots as [|cslot cslots]; [done|]. simpl in Hcs.
    apply Forall_cons_1 in Hwf as [Hslot Hwf].
    rewrite ptes_of_cons in Hb. unfold frames_in_bounds in Hb.
    apply Forall_app in Hb as [Hbd Hb].
    change (length (slot :: slots)) with (S (length slots)).
    rewrite for_loop_S.
    destruct (fork_directory_step fresh (length pre_p)
                (pre_p ++ slot :: slots) (pre_c ++ cslot :: cslots) mc
                slot cslot) as (mc1 & -> & Hlen1 & Hmc1).
    { apply load_middle. }
    { rewrite <-Hpre. apply load_middle. }
    { done. }
    { done. }
    simpl. rewrite store_middle. rewrite <-Hpre. rewrite store_middle.
    rewrite Hpre.
    destruct (IH (pre_p ++ [protect_slot slot])
                (pre_c ++ [inherit_slot fresh (length pre_p) slot cslot])
                cslots mc1)
      as (mc' & Hloop & Hlen' & Hmc').
    { by rewrite !length_app, Hpre. }
    { lia. }
    { done. }
    { unfold frames_in_bounds. by rewrite Hlen1. }
    exists mc'. split_and!.
    + rewrite length_app, Nat2Z.inj_add in Hloop.
      change (Z.of_nat (length [protect_slot slot])) with 1 in Hloop.
      rewrite <-!app_assoc in Hloop. cbn [app] in Hloop. rewrite Hloop.
      simpl. by rewrite Nat.add_1_r.
    + lia.
    + intros f c Hf. rewrite (Hmc' f _ (Hmc1 f c Hf)). f_equal.
      rewrite ptes_of_cons, sharers_app, Nat.add_comm.
      by rewrite Nat.iter_add.
Qed.

Lemma length_malloc_pagetable fo :
  length (malloc_pagetable fo) = Z.to_nat NR_PTES_PER_PAGE.
Proof. unfold malloc_pagetable. by rewrite length_fmap, length_seq. Qed.

(** The fork as a whole: the loops run to their end when the parent's
    table has the declared size and its valid entries name frames of
    [mapcounts]. *)
Lemma switch_process_fork m fo fr pid' :
  take_pid pid' (processes m) = None →
  wf_pagetable (ptbr m) →
  frames_in_bounds (mapcounts m) (ptes_of (ptbr m)) →
  ∃ mc', switch_process m fo fr pid' =
      Some (Machine (memset_tlb (tlb m)) (tlbSize m) mc'
              (Process pid' (fork_child fr 0 (ptbr m) (malloc_pagetable fo)))
              (processes m ++
                 [Process (pid (current m)) (fork_parent (ptbr m))])) ∧
    length mc' = length (mapcounts m) ∧
    ∀ f c, load (mapcounts m) f = Some c →
      load mc' f = Some (Nat.iter (sharers f (ptes_of (ptbr m))) bump c).
Proof.
  intros Hpid [Hlen Hwf]%wf_pagetable_dirs Hb.
  unfold switch_process. rewrite Hpid.
  destruct (fork_directory_loop_from fr [] [] (ptbr m) (malloc_pagetable fo)
              (mapcounts m)) as (mc' & Hloop & Hlen' & Hmc'); [done| |done..|].
  { by rewrite length_malloc_pagetable. }
  cbn [app length] in Hloop. change (Z.of_nat 0) with 0 in Hloop.
  rewrite Hlen in Hloop. rewrite Hloop. by exists mc'.
Qed.

Lemma pte_at_fork_parent pt o i :
  pte_at (fork_parent pt) o i = protect <$> pte_at pt o i.
Proof.
  unfold pte_at, fork_parent. rewrite load_fmap.
  destruct (load pt o) as [[d|]|]; simpl; [|done..].
  apply load_fmap.
Qed.

Lemma lookup_fork_child fr k (ppt cpt : pagetable) n slot :
  length cpt = length ppt → ppt !! n = Some slot →
  ∃ cslot, cpt !! n = Some cslot ∧
    fork_child fr k ppt cpt !! n = Some (inherit_slot fr (k + n) slot cslot).
Proof.
  revert k cpt n. induction ppt as [|s ppt IH]; intros k cpt n Hlen Hn;
    [done|].
  destruct cpt as [|cs cpt]; [done|]. simpl in Hlen.
  destruct n as [|n]; simpl in *.
  - simplify_eq. exists cs. by rewrite Nat.add_0_r.
  - destruct (IH (S k) cpt n) as (cslot & ? & Hc); [lia|done|].
    exists cslot. split; [done|]. rewrite Hc.
    by replace (k + S n)%nat with (S k + n)%nat by lia.
Qed.

Lemma pte_at_fork_child fr fo pt o i e :
  wf_pagetable pt → pte_at pt o i = Some e → valid e = true →
  pte_at (fork_child fr 0 pt (malloc_pagetable fo)) o i =
    Some (Pte true false (pfn e) (private e)).
Proof.
  intros [Hlen Hwf]%wf_pagetable_dirs He Hv. unfold pte_at in *.
  destruct (load pt o) as [[d|]|] eqn:Ho; simplify_eq/=.
  apply load_Some in Ho as [Ho0 Ho]. apply load_Some in He as [Hi0 He].
  destruct (lookup_fork_child fr 0 pt (malloc_pagetable fo) _ _
              ltac:(by rewrite length_malloc_pagetable) Ho)
    as (cslot & _ & Hc).
  rewrite (proj2 (load_Some _ _ _) (conj Ho0 Hc)). simpl.
  apply load_Some. split; [done|]. rewrite lookup_zip_with, He. simpl.
  apply lookup_lt_Some in He as Hi.
  rewrite (proj1 (Forall_lookup _ _) Hwf _ _ Ho d eq_refl) in Hi.
  destruct (lookup_lt_is_Some_2 (malloc_directory (fr (Z.to_nat o)))
              (Z.to_nat i)) as [c ->].
  { by rewrite length_malloc_directory. }
  simpl. unfold inherit. by rewrite Hv.
Qed.

(** C6: when [pid] names no process of the ready list, [switch_process]
    forks.  The count of every frame goes up by one for each valid entry
    of the parent bound to it; for every valid entry of the parent the
    child's entry holds the same pfn and the parent's [private] tag; and
    both copies end with [writable] cleared. *)
Theorem switch_process_fork_cow m fo fr pid' :
  take_pid pid' (processes m) = None →
  wf_pagetable (ptbr m) →
  frames_in_bounds (mapcounts m) (ptes_of (ptbr m)) →
  ∃ m' parent, switch_process m fo fr pid' = Some m' ∧
    pid (current m') = pid' ∧
    processes m' = processes m ++ [parent] ∧
    pid parent = pid (current m) ∧
    (∀ o i e, pte_at (ptbr m) o i = Some e → valid e = true →
       pte_at (ptbr m') o i = Some (Pte true false (pfn e) (private e)) ∧
       pte_at (pgtable parent) o i =
         Some (Pte true false (pfn e) (private e))) ∧
    (∀ f c, load (mapcounts m) f = Some c →
       load (mapcounts m') f =
         Some (Nat.iter (sharers f (ptes_of (ptbr m))) bump c)).
Proof.
  intros Hpid Hwf Hb.
  destruct (switch_process_fork m fo fr pid' Hpid Hwf Hb)
    as (mc' & -> & _ & Hmc').
  eexists _, _. split; [done|].
  unfold ptbr at 2. cbn [pgtable current processes pid mapcounts].
  split_and!; [done..| |done].
  intros o i e He Hv. split.
  - by apply pte_at_fork_child.
  - cbn [pgtable]. rewrite pte_at_fork_parent, He. simpl.
    unfold protect. by rewrite Hv.
Qed.

(** ** The TLB across a switch *)

Lemma switch_process_tlb m fo fr pid' m' :
  switch_process m fo fr pid' = Some m' →
  tlb m' = memset_tlb (tlb m) ∧ tlbSize m' = tlbSize m.
Proof.
  unfold switch_process. intros Hswitch.
  destruct (take_pid pid' (processes m)) as [[p rest]|]; [by simplify_eq|].
  destruct (for_loop _ _ _ _) as [[[ppt cpt] mc]|]; by simplify_eq/=.
Qed.

Lemma load_memset_tlb (t : list tlb_entry) i :
  load (memset_tlb t) i = (λ _, TlbEntry false 0 0) <$> load t i.
Proof. apply load_fmap. Qed.

Lemma lookup_tlb_from_memset (t : list tlb_entry) vpn n i :
  0 ≤ i → i + Z.of_nat n ≤ Z.of_nat (length t) →
  lookup_tlb_from (memset_tlb t) vpn n i =
    if decide (vpn = 0 ∧ n ≠ 0%nat) then Some (Some 0) else Some None.
Proof.
  revert i. induction n as [|n IH]; intros i Hi Hn; cbn [lookup_tlb_from].
  - rewrite decide_False; [done|]. by intros [_ ?].
  - rewrite load_memset_tlb.
    destruct (load_is_Some t i) as [e ->]; [lia|]. simpl.
    destruct (decide (0 = vpn)) as [<-|Hvpn].
    + by rewrite decide_True.
    + rewrite IH by lia. rewrite !decide_False; [done|..]; by intros [? _].
Qed.

(** What the flush of [switch_process] leaves: while [tlbSize] is not 0
    the zeroed slots still answer for vpn 0, with pfn 0; every other page
    number misses. *)
Lemma lookup_tlb_after_switch m fo fr pid' m' vpn :
  switch_process m fo fr pid' = Some m' →
  0 ≤ tlbSize m ≤ Z.of_nat (length (tlb m)) →
  lookup_tlb m' vpn =
    if decide (vpn = 0 ∧ tlbSize m ≠ 0) then Some (Some 0) else Some None.
Proof.
  intros [Htlb Hsize]%switch_process_tlb Hbound.
  unfold lookup_tlb. rewrite Htlb, Hsize.
  rewrite lookup_tlb_from_memset by lia.
  destruct (decide (vpn = 0 ∧ tlbSize m ≠ 0)) as [[? ?]|Hno].
  - rewrite decide_True; [done|]. split; [done|lia].
  - rewrite decide_False; [done|]. intros [? ?]. apply Hno. split; [done|lia].
Qed.

(** ** Read-only pages stay read-only *)

Lemma for_loop_preserves {S} (P : S → Prop) (body : Z → S → option S) n i s s' :
  (∀ k s s', body k s = Some s' → P s → P s') →
  P s → for_loop n i body s = Some s' → P s'.
Proof.
  intros Hbody. revert i s. induction n as [|n IH]; intros i s Hs Hloop;
    simpl in Hloop; [by simplify_eq|].
  destruct (body i s) as [s1|] eqn:Hs1; [|done]. simpl in Hloop. eauto.
Qed.

Lemma ro_pagetable_at pt o i e :
  ro_pagetable pt → pte_at pt o i = Some e → ro_pte e.
Proof.
  unfold pte_at. intros Hpt He.
  destruct (load pt o) as [[d|]|] eqn:Ho; simplify_eq/=.
  apply load_Some in Ho as [_ Ho]. apply load_Some in He as [_ He].
  eapply Forall_lookup_1; [|done].
  by eapply (Forall_lookup_1 _ _ _ _ Hpt Ho).
Qed.

Lemma ro_pagetable_store pt o (d : pte_directory) :
  ro_pagetable pt → Forall ro_pte d → ro_pagetable (store pt o (Some d)).
Proof.
  intros Hpt Hd. apply Forall_insert; [done|]. by intros ? [= <-].
Qed.

Lemma ro_pagetable_put pt o i e :
  ro_pagetable pt → ro_pte e → ro_pagetable (pte_put pt o i e).
Proof.
  intros Hpt He. unfold pte_put.
  destruct (load pt o) as [[d|]|] eqn:Ho; [|done..].
  apply ro_pagetable_store; [done|]. apply Forall_insert; [|done].
  apply load_Some in Ho as [_ Ho]. by eapply (Forall_lookup_1 _ _ _ _ Hpt Ho).
Qed.

Lemma ro_malloc_directory fresh :
  (∀ j, ro_pte (fresh j)) → Forall ro_pte (malloc_directory fresh).
Proof.
  intros Hfresh. unfold malloc_directory. apply Forall_fmap, Forall_forall.
  intros j _. apply Hfresh.
Qed.

Lemma ro_with_directory pt fresh vpn :
  ro_pagetable pt → (∀ j, ro_pte (fresh j)) →
  ro_pagetable (with_directory pt fresh vpn).
Proof.
  intros Hpt Hfresh. unfold with_directory.
  destruct (load pt _) as [[d|]|]; [done| |done].
  by apply ro_pagetable_store, ro_malloc_directory.
Qed.

Lemma ro_set_ptbr pt m :
  ro_machine m → ro_pagetable pt → ro_machine (set_ptbr pt m).
Proof. by intros [_ ?] ?. Qed.

Lemma ro_set_mapcounts mc m : ro_machine m → ro_machine (set_mapcounts mc m).
Proof. done. Qed.

Lemma ro_set_tlb t n m : ro_machine m → ro_machine (set_tlb t n m).
Proof. done. Qed.

Lemma alloc_page_Some m fresh vpn rw r :
  alloc_page m fresh vpn rw = Some r →
  ∃ e, alloc_target m fresh vpn = Some e.
Proof.
  unfold alloc_page, alloc_target, with_directory. intros Hr.
  destruct (load (ptbr m) _) as [[d|]|]; simpl in Hr; [| |done].
  - destruct (pte_at _ _ _) as [e|]; [by exists e|done].
  - destruct (pte_at _ _ _) as [e|]; [by exists e|done].
Qed.

Lemma ro_alloc_page m fresh vpn rw m' :
  ro_machine m → ro_request m (AllocPage fresh vpn rw) →
  step m (AllocPage fresh vpn rw) = Some m' → ro_machine m'.
Proof.
  intros Hm [Hfresh Hrw] Hstep. pose proof Hm as [Hpt _]. simpl in Hstep.
  destruct (alloc_page m fresh vpn rw) as [[m1 r]|] eqn:Halloc;
    simplify_eq/=.
  destruct (alloc_page_Some _ _ _ _ _ Halloc) as [e He].
  rewrite (alloc_page_unfold _ _ _ _ _ He) in Halloc. cbv zeta in Halloc.
  pose proof (ro_with_directory _ fresh vpn Hpt Hfresh) as Hpt1.
  pose proof (ro_pagetable_at _ _ _ _ Hpt1 He) as Hro.
  set (e2 := if decide (rw = RW_READ) then _ else _) in Halloc.
  assert (ro_pte e2 ∧ ∀ f, ro_pte (Pte true (writable e2) f (private e2)))
    as [He2 Hnew].
  { unfold e2, ro_pte in *.
    repeat case_decide; simpl; split; try done.
    all: intros; by destruct (Hrw ltac:(done) ltac:(done) e He). }
  clearbody e2.
  destruct (find_smallest_pfn (mapcounts m)) as [f|]; simplify_eq/=.
  case_decide; simplify_eq/=.
  - apply ro_set_ptbr; [done|]. by apply ro_pagetable_put.
  - destruct (load (mapcounts m) f); simplify_eq/=.
    apply ro_set_mapcounts, ro_set_ptbr; [done|].
    by apply ro_pagetable_put.
Qed.

Lemma ro_free_page m vpn m' :
  ro_machine m → free_page m vpn = Some m' → ro_machine m'.
Proof.
  intros Hm Hfree. pose proof Hm as [Hpt _]. unfold free_page in Hfree.
  destruct (pte_at _ _ _) as [e|]; simplify_eq/=.
  destruct (load (mapcounts m) _); simplify_eq/=.
  destruct (free_tlb_from _ _ _ _ _) as [[t size]|]; simplify_eq/=.
  apply ro_set_tlb, ro_set_mapcounts, ro_set_ptbr; [done|].
  by apply ro_pagetable_put.
Qed.

Lemma ro_handle_page_fault m vpn rw m' b :
  ro_machine m → handle_page_fault m vpn rw = Some (m', b) → ro_machine m'.
Proof.
  intros Hm Hfault. pose proof Hm as [Hpt _]. unfold handle_page_fault in Hfault.
  destruct (load (ptbr m) _) as [[d|]|]; simplify_eq/=; [|done].
  destruct (load d _) as [e|]; simplify_eq/=.
  destruct (valid e); simplify_eq/=; [|done].
  destruct (negb (writable e) && _); simplify_eq/=; [|done].
  case_decide as Htag; simplify_eq/=; [done|].
  assert (∀ f, ro_pte (Pte true true f (private e))) as Hnew
    by (by intros f ?).
  destruct (load (mapcounts m) (pfn e)) as [c|]; simplify_eq/=.
  repeat case_decide; simplify_eq/=; [| |done].
  - apply ro_set_ptbr; [done|]. by apply ro_pagetable_put.
  - destruct (find_smallest_pfn _) as [f|]; simplify_eq/=.
    destruct (load _ f); simplify_eq/=.
    apply ro_set_mapcounts, ro_set_ptbr; [done|]. by apply ro_pagetable_put.
Qed.

Lemma take_pid_Forall (P : process → Prop) pid' ps p rest :
  take_pid pid' ps = Some (p, rest) → Forall P ps → P p ∧ Forall P rest.
Proof.
  revert p rest. induction ps as [|q ps IH]; intros p rest Htake Hps;
    simpl in Htake; [done|].
  apply Forall_cons_1 in Hps as [Hq Hps].
  case_decide; simplify_eq/=; [done|].
  destruct (take_pid pid' ps) as [[p' rest']|]; simplify_eq/=.
  destruct (IH p rest') as [? ?]; [done..|]. split; [done|].
  by constructor.
Qed.

Lemma ro_fork_pte j (pd cd pd' cd' : pte_directory) mc mc' :
  fork_pte j (pd, cd, mc) = Some (pd', cd', mc') →
  Forall ro_pte pd ∧ Forall ro_pte cd → Forall ro_pte pd' ∧ Forall ro_pte cd'.
Proof.
  unfold fork_pte. intros Hstep [Hpd Hcd].
  destruct (load pd j) as [e|]; simplify_eq/=.
  destruct (valid e); simplify_eq/=; [|done].
  destruct (load mc (pfn e)); simplify_eq/=.
  split; by apply Forall_insert.
Qed.

Lemma ro_fork_directory fresh i (ppt cpt ppt' cpt' : pagetable) mc mc' :
  (∀ i j, ro_pte (fresh i j)) →
  fork_directory fresh i (ppt, cpt, mc) = Some (ppt', cpt', mc') →
  ro_pagetable ppt ∧ ro_pagetable cpt → ro_pagetable ppt' ∧ ro_pagetable cpt'.
Proof.
  unfold fork_directory. intros Hfresh Hstep [Hppt Hcpt].
  destruct (load ppt i) as [[pd|]|] eqn:Hi; simplify_eq/=; [|done].
  destruct (for_loop _ _ _ _) as [[[pd' cd'] mc1]|] eqn:Hloop; simplify_eq/=.
  apply (for_loop_preserves
           (λ st, Forall ro_pte st.1.1 ∧ Forall ro_pte st.1.2)) in Hloop
    as [Hpd' Hcd'].
  - split; by apply ro_pagetable_store.
  - intros k [[a b] c] [[a' b'] c'] Hk. simpl. by eapply ro_fork_pte.
  - simpl. split; [|by apply ro_malloc_directory].
    apply load_Some in Hi as [_ Hi].
    by eapply (Forall_lookup_1 _ _ _ _ Hppt Hi).
Qed.

Lemma ro_switch_process m fresh_outer fresh pid' m' :
  ro_machine m → ro_request m (SwitchProcess fresh_outer fresh pid') →
  switch_process m fresh_outer fresh pid' = Some m' → ro_machine m'.
Proof.
  intros [Hpt Hps] [Hfo Hfr]. unfold switch_process. intros Hswitch.
  destruct (take_pid pid' (processes m)) as [[p rest]|] eqn:Htake.
  - simplify_eq/=.
    destruct (take_pid_Forall _ _ _ _ _ Htake Hps) as [Hp Hrest].
    split; [done|]. apply Forall_app. split; [done|]. by constructor.
  - destruct (for_loop _ _ _ _) as [[[ppt cpt] mc]|] eqn:Hloop; simplify_eq/=.
    apply (for_loop_preserves
             (λ st, ro_pagetable st.1.1 ∧ ro_pagetable st.1.2)) in Hloop
      as [Hppt Hcpt].
    + split; [done|]. apply Forall_app. split; [done|]. by constructor.
    + intros k [[a b] c] [[a' b'] c'] Hk. simpl. by eapply ro_fork_directory.
    + simpl. split; [done|]. unfold malloc_pagetable.
      apply Forall_fmap, Forall_forall. intros i _ d. apply Hfo.
Qed.

(** The tag, once set, is never taken off an entry. *)

Lemma pte_at_with_directory pt fresh vpn o i e :
  pte_at pt o i = Some e → pte_at (with_directory pt fresh vpn) o i = Some e.
Proof.
  intros He. unfold with_directory.
  destruct (load pt (vpn / NR_PTES_PER_PAGE)) as [[d|]|] eqn:Hslot;
    [done| |done].
  unfold pte_at in *.
  rewrite (load_store _ _ _ _ _ Hslot). case_decide; [|done].
  subst o. by rewrite Hslot in He.
Qed.

Lemma tag_kept_by_put pt o i e2 o' i' e :
  is_Some (pte_at pt o i) →
  (∀ e0, pte_at pt o i = Some e0 → private e0 = RW_READ →
         private e2 = RW_READ) →
  pte_at pt o' i' = Some e → private e = RW_READ →
  ∃ e', pte_at (pte_put pt o i e2) o' i' = Some e' ∧ private e' = RW_READ.
Proof.
  intros [e0 He0] He2 He Htag.
  destruct (decide ((o', i') = (o, i))) as [[= -> ->]|Hne].
  - exists e2. split; [by eapply pte_at_put_eq|]. by eapply He2.
  - exists e. split; [|done]. by rewrite (pte_at_put_ne _ _ _ _ _ e0).
Qed.

Lemma tags_kept_step m r m' :
  same_process r → step m r = Some m' → tags_kept m m'.
Proof.
  intros Hr Hstep o i e He Htag. destruct r; simpl in *; [| | |done| |].
  - destruct (alloc_page m fresh vpn rw) as [[m1 r]|] eqn:Halloc;
      simplify_eq/=.
    destruct (alloc_page_Some _ _ _ _ _ Halloc) as [e0 He0].
    rewrite (alloc_page_unfold _ _ _ _ _ He0) in Halloc. cbv zeta in Halloc.
    set (e2 := if decide (rw = RW_READ) then _ else _) in Halloc.
    assert (private e0 = RW_READ → private e2 = RW_READ) as He2.
    { unfold e2. by repeat case_decide. }
    clearbody e2.
    apply (pte_at_with_directory _ fresh vpn) in He.
    destruct (find_smallest_pfn (mapcounts m)) as [f|]; simplify_eq/=.
    case_decide; simplify_eq/=.
    + rewrite ptbr_set_ptbr. eapply tag_kept_by_put; [done| |done..].
      intros e1 He1. unfold alloc_target in He0. by simplify_eq.
    + destruct (load (mapcounts m) f); simplify_eq/=.
      rewrite ptbr_set_mapcounts, ptbr_set_ptbr.
      eapply tag_kept_by_put; [done| |done..].
      intros e1 He1. unfold alloc_target in He0. by simplify_eq.
  - unfold free_page in Hstep.
    destruct (pte_at (ptbr m) _ _) as [e0|] eqn:He0; simplify_eq/=.
    destruct (load (mapcounts m) _); simplify_eq/=.
    destruct (free_tlb_from _ _ _ _ _) as [[t size]|]; simplify_eq/=.
    change (ptbr (set_tlb _ _ _)) with
      (pte_put (ptbr m) (vpn / NR_PTES_PER_PAGE) (vpn mod NR_PTES_PER_PAGE)
               (Pte false false 0 (private e0))).
    eapply tag_kept_by_put; [done| |done..].
    intros e1 He1. by simplify_eq.
  - destruct (handle_page_fault m vpn rw) as [[m1 b]|] eqn:Hf; simplify_eq/=.
    unfold handle_page_fault in Hf.
    destruct (load (ptbr m) _) as [[d|]|] eqn:Hslot; simplify_eq/=; [|by eauto].
    destruct (load d _) as [e0|] eqn:He0; simplify_eq/=.
    assert (pte_at (ptbr m) (vpn / NR_PTES_PER_PAGE)
              (vpn mod NR_PTES_PER_PAGE) = Some e0) as Hat.
    { unfold pte_at. rewrite Hslot. done. }
    destruct (valid e0); simplify_eq/=; [|by eauto].
    destruct (negb (writable e0) && _); simplify_eq/=; [|by eauto].
    case_decide; simplify_eq/=; [by eauto|].
    destruct (load (mapcounts m) (pfn e0)) as [c|]; simplify_eq/=.
    repeat case_decide; simplify_eq/=; [| |by eauto].
    + rewrite ptbr_set_ptbr. eapply tag_kept_by_put; [done| |done..].
      intros e1 He1. by simplify_eq.
    + destruct (find_smallest_pfn _) as [f|]; simplify_eq/=.
      destruct (load _ f); simplify_eq/=.
      rewrite ptbr_set_mapcounts, ptbr_set_ptbr.
      eapply tag_kept_by_put; [done| |done..].
      intros e1 He1. by simplify_eq.
  - unfold insert_tlb in Hstep.
    destruct (load (tlb m) (tlbSize m)); simplify_eq/=. by eauto.
  - destruct (lookup_tlb m vpn); simplify_eq/=. by eauto.
Qed.

Lemma ro_init : ro_machine init.
Proof.
  split; [|by constructor]. by apply Forall_replicate.
Qed.

Lemma ro_step m r m' :
  ro_machine m → ro_request m r → step m r = Some m' → ro_machine m'.
Proof.
  destruct r; simpl; intros Hm Hr Hstep.
  - by eapply ro_alloc_page.
  - by eapply ro_free_page.
  - destruct (handle_page_fault m vpn rw) as [[m1 b]|] eqn:Hf; simplify_eq/=.
    by eapply ro_handle_page_fault.
  - by eapply ro_switch_process.
  - unfold insert_tlb in Hstep.
    destruct (load (tlb m) (tlbSize m)); simplify_eq/=. by apply ro_set_tlb.
  - destruct (lookup_tlb m vpn); by simplify_eq/=.
Qed.

(** The [private] field along a run.  [alloc_page] with [RW_READ] sets
    [private] to [RW_READ] and clears [writable]; nothing in the file
    writes [private] afterwards, neither [free_page] nor the read-write
    branch of [alloc_page], so the field outlives the allocation it
    describes.  On the runs where [alloc_page] never meets such a left-over
    field with a read-write request and fresh blocks hold no tagged
    writable entry, every entry of every process with [private = RW_READ]
    has [writable] false; and a fault on an entry with [private = RW_READ]
    returns false, for any access, leaving the machine as it was. *)
Theorem read_only_never_writable m :
  ro_reachable m →
  ro_machine m ∧
  (∀ vpn rw e, current_pte m vpn = Some e → private e = RW_READ →
     handle_page_fault m vpn rw = Some (m, false)) ∧
  (∀ fresh vpn m' r, alloc_page m fresh vpn RW_READ = Some (m', r) →
     ∃ e, current_pte m' vpn = Some e ∧
       valid e = true ∧ private e = RW_READ ∧ writable e = false) ∧
  (∀ r m', same_process r → step m r = Some m' → tags_kept m m').
Proof.
  intros Hreach. split_and!; [| | |by apply tags_kept_step].
  - induction Hreach as [|m r m' _ IH Hr Hstep]; [apply ro_init|].
    by eapply ro_step.
  - clear Hreach. intros vpn rw e He Htag.
    unfold current_pte, pte_at in He. unfold handle_page_fault.
    destruct (load (ptbr m) _) as [[d|]|]; simplify_eq/=.
    rewrite He. simpl. destruct (valid e); simpl; [|done].
    destruct (negb (writable e) && _); [|done]. by rewrite decide_True.
  - clear Hreach. intros fresh vpn m' r Halloc.
    destruct (alloc_page_Some _ _ _ _ _ Halloc) as [e He].
    rewrite (alloc_page_unfold _ _ _ _ _ He) in Halloc. simpl in Halloc.
    rewrite decide_True in Halloc by done.
    destruct (find_smallest_pfn (mapcounts m)) as [f|]; simplify_eq/=.
    case_decide; simplify_eq/=.
    + eexists. split;
        [unfold current_pte; rewrite ptbr_set_ptbr; by eapply pte_at_put_eq|].
      done.
    + destruct (load (mapcounts m) f); simplify_eq/=.
      eexists. split;
        [unfold current_pte; rewrite ptbr_set_mapcounts, ptbr_set_ptbr;
         by eapply pte_at_put_eq|].
      done.
Qed.

(** * Further properties of the operations *)

(** ** The TLB *)

(** The scan reads [vpn] and [pfn] of the slots from [i] to [i + n - 1],
    nothing else. *)
Lemma lookup_tlb_from_ext (t t' : list tlb_entry) vpn n i :
  (∀ k, i ≤ k < i + Z.of_nat n →
        tlb_key <$> load t' k = tlb_key <$> load t k) →
  lookup_tlb_from t' vpn n i = lookup_tlb_from t vpn n i.
Proof.
  revert i. induction n as [|n IH]; intros i Hk; cbn [lookup_tlb_from];
    [done|].
  pose proof (Hk i ltac:(lia)) as Hi.
  rewrite IH by (intros; apply Hk; lia).
  destruct (load t' i) as [[v' a' p']|], (load t i) as [[v a p]|];
    by simplify_eq/=.
Qed.

(** One more slot scanned: the answer of the shorter scan stands unless
    it was a miss. *)
Lemma lookup_tlb_from_snoc (t : list tlb_entry) vpn n i :
  lookup_tlb_from t vpn (S n) i =
    match lookup_tlb_from t vpn n i with
    | Some None =>
        e ← load t (i + Z.of_nat n);
        if decide (tlb_vpn e = vpn) then Some (Some (tlb_pfn e))
        else Some None
    | r => r
    end.
Proof.
  revert i. induction n as [|n IH]; intros i.
  - cbn [lookup_tlb_from]. rewrite Z.add_0_r.
    destruct (load t i) as [e|]; simpl; [|done]. by case_decide.
  - change (lookup_tlb_from t vpn (S (S n)) i) with
      (e ← load t i;
       if decide (tlb_vpn e = vpn) then Some (Some (tlb_pfn e))
       else lookup_tlb_from t vpn (S n) (i + 1)).
    rewrite IH. cbn [lookup_tlb_from].
    destruct (load t i) as [e|]; simpl; [|done].
    case_decide; [done|].
    by replace (i + 1 + Z.of_nat n) with (i + Z.of_nat (S n)) by lia.
Qed.

(** Inside the array the scan always comes to an answer. *)
Lemma lookup_tlb_from_total (t : list tlb_entry) vpn n i :
  0 ≤ i → i + Z.of_nat n ≤ Z.of_nat (length t) →
  is_Some (lookup_tlb_from t vpn n i).
Proof.
  revert i. induction n as [|n IH]; intros i Hi Hn; cbn [lookup_tlb_from];
    [done|].
  destruct (load_is_Some t i) as [e ->]; [lia|]. simpl.
  case_decide; [done|]. apply IH; lia.
Qed.

(** X1: after [insert_tlb(vpn, pfn)] every lookup answers as before,
    except that a page number that missed now hits with [pfn] if it is
    [vpn].  A page number that was already cached keeps its old frame: the
    scan stops at the first slot, so the new translation is shadowed. *)
Theorem lookup_tlb_insert_tlb m vpn pfn' m' v :
  insert_tlb m vpn pfn' = Some m' →
  ∃ r, lookup_tlb m v = Some r ∧
    lookup_tlb m' v =
      Some (match r with
            | Some p => Some p
            | None => if decide (v = vpn) then Some pfn' else None
            end).
Proof.
  unfold insert_tlb. intros Hins.
  destruct (load (tlb m) (tlbSize m)) as [e0|] eqn:Hload; simplify_eq/=.
  apply load_bounds in Hload as Hb.
  destruct (lookup_tlb_from_total (tlb m) v (Z.to_nat (tlbSize m)) 0)
    as [r Hr]; [lia..|].
  exists r. split; [done|]. unfold lookup_tlb. simpl.
  replace (Z.to_nat (tlbSize m + 1)) with (S (Z.to_nat (tlbSize m))) by lia.
  rewrite lookup_tlb_from_snoc.
  rewrite (lookup_tlb_from_ext (tlb m)), Hr.
  - destruct r as [p|]; [done|].
    rewrite Z.add_0_l, Z2Nat.id by lia. rewrite load_store_eq by done.
    simpl. repeat case_decide; by simplify_eq.
  - intros k Hk. rewrite load_store_ne by lia. done.
Qed.

(** The loop at the end of [free_page]: it always ends inside the array;
    it changes no [vpn] and no [pfn]; and it takes one off [tlbSize]
    exactly when the scan of [lookup_tlb] would hit. *)
Lemma free_tlb_from_spec (t : list tlb_entry) size vpn n i :
  0 ≤ i → i + Z.of_nat n ≤ Z.of_nat (length t) →
  ∃ t' size', free_tlb_from t size vpn n i = Some (t', size') ∧
    length t' = length t ∧
    (∀ k, tlb_key <$> load t' k = tlb_key <$> load t k) ∧
    match lookup_tlb_from t vpn n i with
    | Some (Some _) => size' = size - 1
    | _ => size' = size ∧ t' = t
    end.
Proof.
  revert i. induction n as [|n IH]; intros i Hi Hn;
    cbn [free_tlb_from lookup_tlb_from].
  - by exists t, size.
  - destruct (load_is_Some t i) as [e He]; [lia|]. rewrite He. simpl.
    case_decide as Hvpn.
    + eexists _, _. split_and!; [done|by rewrite length_store| |done].
      intros k. rewrite (load_store _ _ _ _ _ He).
      case_decide; [|done]. subst k. by rewrite He.
    + apply IH; lia.
Qed.

(** X2: the TLB side of [free_page].  When [vpn] is not cached the TLB
    is left alone.  When it is, no slot is removed: [tlbSize] goes down by
    one, so from then on the lookups see the old slots but for the last
    one, whichever page that one translates. *)
Theorem free_page_tlb m vpn m' :
  tlb_in_bounds m → free_page m vpn = Some m' →
  ∃ r, lookup_tlb m vpn = Some r ∧
    match r with
    | None => tlb m' = tlb m ∧ tlbSize m' = tlbSize m
    | Some _ =>
        tlbSize m' = tlbSize m - 1 ∧
        ∀ v, lookup_tlb m' v =
             lookup_tlb_from (tlb m) v (Z.to_nat (tlbSize m - 1)) 0
    end.
Proof.
  intros Hb Hfree. unfold free_page in Hfree.
  destruct (pte_at _ _ _) as [e|]; simplify_eq/=.
  destruct (load (mapcounts m) _); simplify_eq/=.
  destruct (free_tlb_from_spec (tlb m) (tlbSize m) vpn
              (Z.to_nat (tlbSize m)) 0)
    as (t' & size' & Hloop & _ & Hkeys & Hsize);
    [lia|unfold tlb_in_bounds in Hb; lia|].
  rewrite Hloop in Hfree. simplify_eq/=.
  unfold lookup_tlb at 1.
  destruct (lookup_tlb_from (tlb m) vpn _ 0) as [[p|]|] eqn:Hscan.
  - eexists. split; [done|]. simpl. split; [done|].
    intros v. unfold lookup_tlb. simpl. subst size'.
    by apply lookup_tlb_from_ext.
  - eexists. split; [done|]. simpl. by destruct Hsize as [-> ->].
  - destruct (lookup_tlb_from_total (tlb m) vpn (Z.to_nat (tlbSize m)) 0)
      as [? ?]; [lia|unfold tlb_in_bounds in Hb; lia|congruence].
Qed.

(** X3: the flush of [switch_process] writes zeroes over the array and
    leaves [tlbSize] where it was.  Right after any switch, resume or
    fork, vpn 0 is answered with pfn 0 as soon as [tlbSize] is not 0, and
    every other page number misses. *)
Theorem tlb_across_switch m fo fr pid' m' :
  switch_process m fo fr pid' = Some m' → tlb_in_bounds m →
  tlbSize m' = tlbSize m ∧ length (tlb m') = length (tlb m) ∧
  ∀ v, lookup_tlb m' v =
       Some (if decide (v = 0 ∧ tlbSize m ≠ 0) then Some 0 else None).
Proof.
  intros Hswitch Hb.
  pose proof (switch_process_tlb _ _ _ _ _ Hswitch) as [Htlb Hsize].
  split_and!; [done| |].
  - rewrite Htlb. unfold memset_tlb. by rewrite length_fmap.
  - intros v. rewrite (lookup_tlb_after_switch _ _ _ _ _ _ Hswitch Hb).
    by case_decide.
Qed.

(** ** free_page *)

(** [free_page] runs to its end on any entry it can reach whose [pfn]
    names a frame of [mapcounts]; the machine it leaves. *)
Lemma free_page_result m vpn e c :
  current_pte m vpn = Some e → load (mapcounts m) (pfn e) = Some c →
  tlb_in_bounds m →
  ∃ t size,
    free_page m vpn =
      Some (set_tlb t size
              (set_mapcounts (store (mapcounts m) (pfn e) (u32 (c - 1)))
                 (set_ptbr (pte_put (ptbr m) (vpn / NR_PTES_PER_PAGE)
                              (vpn mod NR_PTES_PER_PAGE)
                              (Pte false false 0 (private e))) m))) ∧
    length t = length (tlb m) ∧ 0 ≤ size ≤ Z.of_nat (length (tlb m)).
Proof.
  intros He Hc Hb. unfold tlb_in_bounds in Hb.
  destruct (free_tlb_from_spec (tlb m) (tlbSize m) vpn
              (Z.to_nat (tlbSize m)) 0)
    as (t' & size' & Hloop & Hlen & _ & Hsize); [lia..|].
  exists t', size'. unfold free_page. unfold current_pte in He.
  rewrite He. simpl. rewrite Hc. simpl. rewrite Hloop. simpl.
  split_and!; [done..| |].
  - destruct (Z.to_nat (tlbSize m)) as [|n] eqn:Hn.
    + simpl in Hsize. lia.
    + destruct (lookup_tlb_from _ _ _ _) as [[?|]|]; lia.
  - destruct (lookup_tlb_from _ _ _ _) as [[?|]|]; lia.
Qed.

(** X4: [free_page(vpn)] does not look at [valid].  Whatever entry [vpn]
    addresses is cleared ([valid] and [writable] false, [pfn] 0,
    [private] kept) and the count of the frame it named goes down by one,
    wrapping below 0; every other entry of the running process, every
    other count and every other process are as before. *)
Theorem free_page_unmaps m vpn e c :
  current_pte m vpn = Some e → load (mapcounts m) (pfn e) = Some c →
  tlb_in_bounds m →
  ∃ m', free_page m vpn = Some m' ∧
    current_pte m' vpn = Some (Pte false false 0 (private e)) ∧
    load (mapcounts m') (pfn e) = Some (u32 (c - 1)) ∧
    (∀ g, g ≠ pfn e → load (mapcounts m') g = load (mapcounts m) g) ∧
    (∀ o i, (o, i) ≠ (vpn / NR_PTES_PER_PAGE, vpn mod NR_PTES_PER_PAGE) →
            pte_at (ptbr m') o i = pte_at (ptbr m) o i) ∧
    processes m' = processes m ∧ pid (current m') = pid (current m).
Proof.
  intros He Hc Hb.
  destruct (free_page_result m vpn e c He Hc Hb) as (t & size & -> & _).
  eexists. split; [done|].
  change (ptbr (set_tlb _ _ _)) with
    (pte_put (ptbr m) (vpn / NR_PTES_PER_PAGE) (vpn mod NR_PTES_PER_PAGE)
             (Pte false false 0 (private e))).
  unfold current_pte in *. simpl. split_and!; [| | | |done..].
  - by eapply pte_at_put_eq.
  - apply load_store_eq. by eapply load_bounds.
  - intros g Hg. apply load_store_ne; [|done]. by eapply load_bounds.
  - intros o i Hne. by eapply pte_at_put_ne.
Qed.

(** X5: a second [free_page(vpn)] is charged to frame 0.  The first call
    resets [pfn] to 0 and the second does not test [valid], so it takes
    one more off [mapcounts[0]], whoever holds frame 0. *)
Theorem free_page_twice m vpn e c :
  current_pte m vpn = Some e → load (mapcounts m) (pfn e) = Some c →
  tlb_in_bounds m →
  ∃ m1 c0 m2, free_page m vpn = Some m1 ∧
    load (mapcounts m1) 0 = Some c0 ∧
    free_page m1 vpn = Some m2 ∧
    load (mapcounts m2) 0 = Some (u32 (c0 - 1)) ∧
    current_pte m2 vpn = Some (Pte false false 0 (private e)).
Proof.
  intros He Hc Hb.
  destruct (free_page_result m vpn e c He Hc Hb)
    as (t & size & Hfree & Hlen & Hsize).
  eexists _. rewrite Hfree.
  set (m1 := set_tlb _ _ _).
  assert (current_pte m1 vpn = Some (Pte false false 0 (private e))) as He1.
  { unfold current_pte in *. by eapply pte_at_put_eq. }
  destruct (load_is_Some (mapcounts m1) 0) as [c0 Hc0].
  { apply load_bounds in Hc. unfold m1. simpl. rewrite length_store. lia. }
  destruct (free_page_result m1 vpn _ c0 He1 Hc0)
    as (t2 & size2 & Hfree2 & _).
  { unfold tlb_in_bounds, m1. simpl. lia. }
  eexists c0, _. rewrite Hfree2. split_and!; [done..| |].
  - simpl. apply load_store_eq. by eapply load_bounds.
  - unfold current_pte in *. by eapply pte_at_put_eq.
Qed.

(** X6: a page allocated while a frame is free and freed at once gives
    the frame back: [mapcounts] is what it was before the two calls, and
    the entry is left invalid with [pfn] 0.  (The directory that
    [alloc_page] may have created stays.) *)
Theorem alloc_then_free m fresh vpn rw :
  wf_pagetable (ptbr m) → vpn_in_range vpn →
  0 ≤ NR_PAGEFRAMES → length (mapcounts m) = Z.to_nat NR_PAGEFRAMES →
  tlb_in_bounds m →
  (∃ g, load (mapcounts m) g = Some 0) →
  ∃ f m1 m2 e2, alloc_page m fresh vpn rw = Some (m1, f) ∧
    least_free (mapcounts m) f ∧
    free_page m1 vpn = Some m2 ∧
    mapcounts m2 = mapcounts m ∧
    current_pte m2 vpn = Some e2 ∧
    valid e2 = false ∧ writable e2 = false ∧ pfn e2 = 0 ∧
    processes m2 = processes m.
Proof.
  intros Hwf Hvpn Hnr Hlen Hb [g Hg].
  destruct (alloc_target_defined m fresh vpn Hwf Hvpn) as (slot & e & _ & He).
  rewrite (alloc_page_unfold _ _ _ _ _ He). cbv zeta.
  set (e2 := if decide (rw = RW_READ) then _ else _).
  destruct (find_smallest_pfn_cases _ Hnr Hlen)
    as [(f & Hfind & Hfr & Hf)|[_ Hall]]; [|by destruct (Hall g)].
  rewrite Hfind. simpl. rewrite decide_False by lia.
  pose proof Hf as [Hf0 _]. rewrite Hf0. simpl.
  set (m1 := set_mapcounts _ _).
  assert (current_pte m1 vpn =
            Some (Pte true (writable e2) f (private e2))) as He1.
  { unfold current_pte, m1. rewrite ptbr_set_mapcounts, ptbr_set_ptbr.
    by eapply pte_at_put_eq. }
  assert (load (mapcounts m1) f = Some (u32 (0 + 1))) as Hc1.
  { unfold m1. simpl. apply load_store_eq. by eapply load_bounds. }
  destruct (free_page_result m1 vpn _ _ He1 Hc1 Hb)
    as (t & size & Hfree & _).
  eexists f, m1, _, _. split; [done|]. split; [done|].
  split; [exact Hfree|]. split_and!; [|by eapply pte_at_put_eq|done..].
  simpl. unfold store. rewrite list_insert_insert_eq.
  apply list_insert_id. by apply load_Some in Hf0 as [_ ?].
Qed.

(** ** lookup_tlb and find_smallest_pfn *)

Lemma lookup_tlb_from_first (t : list tlb_entry) vpn n i :
  0 ≤ i → i + Z.of_nat n ≤ Z.of_nat (length t) →
  match lookup_tlb_from t vpn n i with
  | Some (Some p) =>
      ∃ k x, i ≤ k < i + Z.of_nat n ∧ load t k = Some x ∧
        tlb_vpn x = vpn ∧ tlb_pfn x = p ∧
        ∀ j x', i ≤ j < k → load t j = Some x' → tlb_vpn x' ≠ vpn
  | Some None =>
      ∀ k x, i ≤ k < i + Z.of_nat n → load t k = Some x → tlb_vpn x ≠ vpn
  | None => False
  end.
Proof.
  revert i. induction n as [|n IH]; intros i Hi Hn; cbn [lookup_tlb_from].
  - intros k e Hk. lia.
  - destruct (load_is_Some t i) as [e He]; [lia|]. rewrite He. simpl.
    case_decide as Hvpn.
    + exists i, e. split_and!; [lia..|done|done|done|]. intros; lia.
    + specialize (IH (i + 1) ltac:(lia) ltac:(lia)).
      destruct (lookup_tlb_from t vpn n (i + 1)) as [[p|]|]; [| |done].
      * destruct IH as (k & e' & Hk & He' & Hv & Hp & Hmin).
        exists k, e'. split_and!; [lia..|done|done|done|].
        intros j e'' Hj Hj'. destruct (decide (j = i)) as [->|].
        -- by simplify_eq.
        -- eapply Hmin; [|done]. lia.
      * intros k e' Hk Hk'. destruct (decide (k = i)) as [->|].
        -- by simplify_eq.
        -- eapply IH; [|done]. lia.
Qed.

(** X7: [lookup_tlb] answers with the first slot below [tlbSize] that
    carries [vpn], valid or not, and misses exactly when no slot below
    [tlbSize] carries it. *)
Theorem lookup_tlb_first_match m vpn :
  tlb_in_bounds m →
  match lookup_tlb m vpn with
  | Some (Some p) =>
      ∃ k x, 0 ≤ k < tlbSize m ∧ load (tlb m) k = Some x ∧
        tlb_vpn x = vpn ∧ tlb_pfn x = p ∧
        ∀ j x', 0 ≤ j < k → load (tlb m) j = Some x' → tlb_vpn x' ≠ vpn
  | Some None =>
      ∀ k x, 0 ≤ k < tlbSize m → load (tlb m) k = Some x → tlb_vpn x ≠ vpn
  | None => False
  end.
Proof.
  intros Hb. unfold tlb_in_bounds in Hb. unfold lookup_tlb.
  pose proof (lookup_tlb_from_first (tlb m) vpn (Z.to_nat (tlbSize m)) 0
                ltac:(lia) ltac:(lia)) as Hscan.
  rewrite Z.add_0_l, Z2Nat.id in Hscan by lia. done.
Qed.

(** X8: on a table of NR_PAGEFRAMES counts [find_smallest_pfn] returns a
    number between 0 and NR_PAGEFRAMES: below NR_PAGEFRAMES it is the
    least frame whose count is 0, and it is NR_PAGEFRAMES exactly when no
    count is 0. *)
Theorem find_smallest_pfn_contract mc :
  0 ≤ NR_PAGEFRAMES → length mc = Z.to_nat NR_PAGEFRAMES →
  ∃ r, find_smallest_pfn mc = Some r ∧ 0 ≤ r ≤ NR_PAGEFRAMES ∧
    (r < NR_PAGEFRAMES → least_free mc r) ∧
    (r = NR_PAGEFRAMES ↔ all_frames_used mc).
Proof.
  intros Hnr Hlen.
  destruct (find_smallest_pfn_cases mc Hnr Hlen)
    as [(f & -> & Hfr & Hf)|[-> Hall]].
  - exists f. split_and!; [done|lia|lia|done|].
    split; [lia|]. intros Hall. destruct Hf as [Hf _]. by destruct (Hall f).
  - exists NR_PAGEFRAMES. split_and!; [done|lia|lia|lia|done].
Qed.

(** ** handle_page_fault and alloc_page: what they leave alone *)

(** X9: [handle_page_fault] never touches the TLB, the ready list or the
    pid.  When it returns false the whole machine is as it was.  It
    returns true only for a write access to a valid, write-protected entry
    that is not tagged read-only, and then leaves that entry valid and
    writable with its tag. *)
Theorem handle_page_fault_outcome m vpn rw m' b :
  handle_page_fault m vpn rw = Some (m', b) →
  tlb m' = tlb m ∧ tlbSize m' = tlbSize m ∧
  processes m' = processes m ∧ pid (current m') = pid (current m) ∧
  (b = false → m' = m) ∧
  (b = true →
     ∃ e e', current_pte m vpn = Some e ∧ cow_fault e rw ∧
       current_pte m' vpn = Some e' ∧
       valid e' = true ∧ writable e' = true ∧ private e' = private e).
Proof.
  intros Hfault. unfold handle_page_fault in Hfault.
  destruct (load (ptbr m) _) as [[d|]|] eqn:Hslot; simplify_eq/=; [|done].
  destruct (load d _) as [e|] eqn:He; simplify_eq/=.
  assert (current_pte m vpn = Some e) as Hat.
  { unfold current_pte, pte_at. by rewrite Hslot. }
  destruct (valid e) eqn:Hv; simplify_eq/=; [|done].
  destruct (writable e) eqn:Hw; simplify_eq/=; [done|].
  case_bool_decide as Hrw; simplify_eq/=; [|done].
  case_decide as Htag; simplify_eq/=; [done|].
  destruct (load (mapcounts m) (pfn e)) as [c|]; simplify_eq/=.
  repeat case_decide; simplify_eq/=; [| |done].
  - split_and!; [done..|]. intros _. eexists e, _.
    split; [done|]. split; [by repeat split|].
    split; [unfold current_pte in *; by eapply pte_at_put_eq|]. done.
  - destruct (find_smallest_pfn _) as [f|]; simplify_eq/=.
    destruct (load _ f); simplify_eq/=.
    split_and!; [done..|]. intros _. eexists e, _.
    split; [done|]. split; [by repeat split|].
    split;
      [unfold current_pte in *; rewrite ptbr_set_mapcounts, ptbr_set_ptbr;
       by eapply pte_at_put_eq|].
    done.
Qed.

(** X10: [alloc_page] writes one entry and at most one count.  The TLB,
    the ready list and the pid are untouched, every entry that existed
    elsewhere in the running process's table is as before, and so is the
    count of every frame but the one returned. *)
Theorem alloc_page_frame m fresh vpn rw m' r :
  alloc_page m fresh vpn rw = Some (m', r) →
  tlb m' = tlb m ∧ tlbSize m' = tlbSize m ∧
  processes m' = processes m ∧ pid (current m') = pid (current m) ∧
  (∀ o i e, (o, i) ≠ (vpn / NR_PTES_PER_PAGE, vpn mod NR_PTES_PER_PAGE) →
     pte_at (ptbr m) o i = Some e → pte_at (ptbr m') o i = Some e) ∧
  (∀ g, g ≠ r → load (mapcounts m') g = load (mapcounts m) g).
Proof.
  intros Halloc.
  destruct (alloc_page_Some _ _ _ _ _ Halloc) as [e He].
  rewrite (alloc_page_unfold _ _ _ _ _ He) in Halloc. cbv zeta in Halloc.
  set (e2 := if decide (rw = RW_READ) then _ else _) in Halloc.
  clearbody e2.
  assert (∀ e3 o i e0,
    (o, i) ≠ (vpn / NR_PTES_PER_PAGE, vpn mod NR_PTES_PER_PAGE) →
    pte_at (ptbr m) o i = Some e0 →
    pte_at (pte_put (with_directory (ptbr m) fresh vpn)
              (vpn / NR_PTES_PER_PAGE) (vpn mod NR_PTES_PER_PAGE) e3) o i
      = Some e0) as Hother.
  { intros e3 o i e0 Hne He0. unfold alloc_target in He.
    rewrite (pte_at_put_ne _ _ _ _ _ _ _ He Hne).
    by apply pte_at_with_directory. }
  destruct (find_smallest_pfn (mapcounts m)) as [f|]; simplify_eq/=.
  case_decide; simplify_eq/=.
  - split_and!; try done. intros o i e0. apply Hother.
  - destruct (load (mapcounts m) f) eqn:Hr; simplify_eq/=.
    split_and!; try done; [intros o i e0; apply Hother|].
    intros g Hg. apply load_store_ne; [|done]. by eapply load_bounds.
Qed.

(** ** switch_process: resume *)

Lemma take_pid_first pid' (before after : list process) p :
  Forall (λ q, pid q ≠ pid') before → pid p = pid' →
  take_pid pid' (before ++ p :: after) = Some (p, before ++ after).
Proof.
  intros Hbefore Hp. induction before as [|q before IH]; simpl.
  - by rewrite decide_True.
  - apply Forall_cons_1 in Hbefore as [Hq Hbefore].
    rewrite decide_False by done. by rewrite IH.
Qed.

Lemma take_pid_None pid' (ps : list process) :
  take_pid pid' ps = None ↔ Forall (λ q, pid q ≠ pid') ps.
Proof.
  induction ps as [|q ps IH]; simpl; [by split; [constructor|]|].
  case_decide as Hq.
  - split; [done|]. intros [? _]%Forall_cons_1. done.
  - destruct (take_pid pid' ps) as [[p rest]|]; simpl.
    + split; [done|]. intros [_ Hps]%Forall_cons_1.
      by apply IH in Hps.
    + split; [|done]. intros _. constructor; [done|]. by apply IH.
Qed.

(** X11: a switch to a pid of the ready list resumes the first process
    that carries it.  That process becomes the running one, the process
    that was running goes to the tail of the list, and no page table and
    no count is written; only the TLB array is zeroed. *)
Theorem switch_process_resume m fo fr pid' (before after : list process) p :
  processes m = before ++ p :: after →
  Forall (λ q, pid q ≠ pid') before → pid p = pid' →
  switch_process m fo fr pid' =
    Some (Machine (memset_tlb (tlb m)) (tlbSize m) (mapcounts m) p
            ((before ++ after) ++ [current m])).
Proof.
  intros Hps Hbefore Hp. unfold switch_process.
  by rewrite Hps, (take_pid_first _ _ _ _ Hbefore Hp).
Qed.

(** X12: fork and come back.  When neither [pid'] nor the running pid is
    in the ready list, [switch_process(pid')] followed by a switch to the
    parent's pid brings the parent back as the running process: its table
    is the one it had with every valid entry write-protected, the child
    waits at the tail of the ready list, and the second switch changes no
    count. *)
Theorem switch_process_fork_and_back m fo fr fo' fr' pid' :
  Forall (λ q, pid q ≠ pid') (processes m) →
  Forall (λ q, pid q ≠ pid (current m)) (processes m) →
  wf_pagetable (ptbr m) →
  frames_in_bounds (mapcounts m) (ptes_of (ptbr m)) →
  ∃ m1 m2 child,
    switch_process m fo fr pid' = Some m1 ∧
    switch_process m1 fo' fr' (pid (current m)) = Some m2 ∧
    pid (current m2) = pid (current m) ∧
    ptbr m2 = fork_parent (ptbr m) ∧
    (∀ o i, pte_at (ptbr m2) o i = protect <$> pte_at (ptbr m) o i) ∧
    processes m2 = processes m ++ [child] ∧
    current m1 = child ∧ pid child = pid' ∧
    mapcounts m2 = mapcounts m1.
Proof.
  intros Hpid Hcur Hwf Hb.
  destruct (switch_process_fork m fo fr pid'
              (proj2 (take_pid_None _ _) Hpid) Hwf Hb)
    as (mc' & Hfork & _).
  eexists _, _, _. split; [exact Hfork|].
  split.
  { unfold switch_process. cbn [processes].
    by rewrite (take_pid_first _ (processes m) [] (Process _ _) Hcur). }
  cbn [current processes mapcounts pid]. unfold ptbr at 1 3.
  cbn [current pgtable]. split_and!; try done.
  - intros o i. apply pte_at_fork_parent.
  - by rewrite app_nil_r.
Qed.

(** ** The sizes of the arrays *)

Lemma wf_pagetable_iff pt :
  wf_pagetable pt ↔
  length pt = Z.to_nat NR_PTES_PER_PAGE ∧
  Forall (λ slot, ∀ d : pte_directory,
            slot = Some d → length d = Z.to_nat NR_PTES_PER_PAGE) pt.
Proof.
  split; [apply wf_pagetable_dirs|]. intros [Hlen Hall]. split; [done|].
  apply Forall_lookup. intros i slot Hi.
  pose proof (Forall_lookup_1 _ _ _ _ Hall Hi) as Hslot.
  destruct slot as [d|]; simpl; [|constructor].
  constructor; [by apply Hslot|constructor].
Qed.

Lemma wf_pagetable_store pt o (d : pte_directory) :
  wf_pagetable pt → length d = Z.to_nat NR_PTES_PER_PAGE →
  wf_pagetable (store pt o (Some d)).
Proof.
  rewrite !wf_pagetable_iff. intros [Hlen Hall] Hd.
  split; [by rewrite length_store|].
  apply Forall_insert; [done|]. by intros ? [= <-].
Qed.

Lemma wf_pagetable_put pt o i e :
  wf_pagetable pt → wf_pagetable (pte_put pt o i e).
Proof.
  intros Hwf. unfold pte_put.
  destruct (load pt o) as [[d|]|] eqn:Ho; [|done..].
  apply wf_pagetable_store; [done|]. rewrite length_store.
  apply wf_pagetable_iff in Hwf as [_ Hall].
  apply load_Some in Ho as [_ Ho].
  by apply (Forall_lookup_1 _ _ _ _ Hall Ho).
Qed.

Lemma wf_with_directory pt fresh vpn :
  wf_pagetable pt → wf_pagetable (with_directory pt fresh vpn).
Proof.
  intros Hwf. unfold with_directory.
  destruct (load pt _) as [[d|]|]; [done| |done].
  apply wf_pagetable_store; [done|]. apply length_malloc_directory.
Qed.

Lemma wf_set_ptbr pt m :
  wf_machine m → wf_pagetable pt → wf_machine (set_ptbr pt m).
Proof. intros (? & ? & ? & _ & ?) ?. by split_and!. Qed.

Lemma wf_set_mapcounts mc m :
  wf_machine m → length mc = length (mapcounts m) →
  wf_machine (set_mapcounts mc m).
Proof.
  intros (? & ? & Hlen & ? & ?) Hmc. split_and!; try done.
  simpl. by rewrite Hmc.
Qed.

Lemma wf_alloc_page m fresh vpn rw m' r :
  wf_machine m → alloc_page m fresh vpn rw = Some (m', r) → wf_machine m'.
Proof.
  intros Hm Halloc. pose proof Hm as (_ & _ & _ & Hpt & _).
  destruct (alloc_page_Some _ _ _ _ _ Halloc) as [e He].
  rewrite (alloc_page_unfold _ _ _ _ _ He) in Halloc. cbv zeta in Halloc.
  set (e2 := if decide (rw = RW_READ) then _ else _) in Halloc.
  clearbody e2.
  pose proof (wf_with_directory _ fresh vpn Hpt) as Hpt1.
  destruct (find_smallest_pfn (mapcounts m)) as [f|]; simplify_eq/=.
  case_decide; simplify_eq/=.
  - apply wf_set_ptbr; [done|]. by apply wf_pagetable_put.
  - destruct (load (mapcounts m) f); simplify_eq/=.
    apply wf_set_mapcounts; [|by rewrite length_store].
    apply wf_set_ptbr; [done|]. by apply wf_pagetable_put.
Qed.

Lemma wf_free_page m vpn m' :
  wf_machine m → free_page m vpn = Some m' → wf_machine m'.
Proof.
  intros Hm Hfree. pose proof Hm as (Htlb & Hb & Hmc & Hpt & Hps).
  unfold free_page in Hfree.
  destruct (pte_at (ptbr m) _ _) as [e|] eqn:He; simplify_eq/=.
  destruct (load (mapcounts m) (pfn e)) as [c|] eqn:Hc; simplify_eq/=.
  destruct (free_page_result m vpn e c He Hc Hb)
    as (t & size & Hres & Hlen & Hsize).
  unfold free_page in Hres. rewrite He in Hres. simpl in Hres.
  rewrite Hc in Hres. simpl in Hres.
  destruct (free_tlb_from _ _ _ _ _) as [[t' size']|]; simplify_eq/=.
  split_and!; simpl; try done.
  - by rewrite Hlen.
  - unfold tlb_in_bounds. simpl. by rewrite Hlen.
  - by rewrite length_store.
  - by apply wf_pagetable_put.
Qed.

Lemma wf_handle_page_fault m vpn rw m' b :
  wf_machine m → handle_page_fault m vpn rw = Some (m', b) → wf_machine m'.
Proof.
  intros Hm Hfault. pose proof Hm as (_ & _ & _ & Hpt & _).
  unfold handle_page_fault in Hfault.
  destruct (load (ptbr m) _) as [[d|]|]; simplify_eq/=; [|done].
  destruct (load d _) as [e|]; simplify_eq/=.
  destruct (valid e); simplify_eq/=; [|done].
  destruct (negb (writable e) && _); simplify_eq/=; [|done].
  case_decide; simplify_eq/=; [done|].
  destruct (load (mapcounts m) (pfn e)) as [c|]; simplify_eq/=.
  repeat case_decide; simplify_eq/=; [| |done].
  - apply wf_set_ptbr; [done|]. by apply wf_pagetable_put.
  - destruct (find_smallest_pfn _) as [f|]; simplify_eq/=.
    destruct (load _ f); simplify_eq/=.
    apply wf_set_mapcounts; [|by rewrite !length_store].
    apply wf_set_ptbr; [done|]. by apply wf_pagetable_put.
Qed.

Lemma wf_fork_pte (L : nat) j (pd cd pd' cd' : pte_directory) mc mc' :
  fork_pte j (pd, cd, mc) = Some (pd', cd', mc') →
  length pd = Z.to_nat NR_PTES_PER_PAGE ∧
  length cd = Z.to_nat NR_PTES_PER_PAGE ∧ length mc = L →
  length pd' = Z.to_nat NR_PTES_PER_PAGE ∧
  length cd' = Z.to_nat NR_PTES_PER_PAGE ∧ length mc' = L.
Proof.
  unfold fork_pte. intros Hstep (Hpd & Hcd & Hmc).
  destruct (load pd j) as [e|]; simplify_eq/=.
  destruct (valid e); simplify_eq/=; [|done].
  destruct (load mc (pfn e)); simplify_eq/=.
  by rewrite !length_store.
Qed.

Lemma wf_fork_directory (L : nat) fresh i (ppt cpt ppt' cpt' : pagetable)
    mc mc' :
  fork_directory fresh i (ppt, cpt, mc) = Some (ppt', cpt', mc') →
  wf_pagetable ppt ∧ wf_pagetable cpt ∧ length mc = L →
  wf_pagetable ppt' ∧ wf_pagetable cpt' ∧ length mc' = L.
Proof.
  unfold fork_directory. intros Hstep (Hppt & Hcpt & Hmc).
  destruct (load ppt i) as [[pd|]|] eqn:Hi; simplify_eq/=; [|done].
  destruct (for_loop _ _ _ _) as [[[pd' cd'] mc1]|] eqn:Hloop; simplify_eq/=.
  apply (for_loop_preserves
           (λ st, length st.1.1 = Z.to_nat NR_PTES_PER_PAGE ∧
                  length st.1.2 = Z.to_nat NR_PTES_PER_PAGE ∧
                  length st.2 = length mc)) in Hloop
    as (Hpd' & Hcd' & Hmc').
  - split_and!; [by apply wf_pagetable_store..|done].
  - intros k [[a b] c] [[a' b'] c'] Hk. simpl. by eapply wf_fork_pte.
  - simpl. split_and!; [|apply length_malloc_directory|done].
    apply wf_pagetable_iff in Hppt as [_ Hall].
    apply load_Some in Hi as [_ Hi].
    by apply (Forall_lookup_1 _ _ _ _ Hall Hi).
Qed.

Lemma wf_switch_process m fresh_outer fresh pid' m' :
  wf_machine m → sized_request (SwitchProcess fresh_outer fresh pid') →
  switch_process m fresh_outer fresh pid' = Some m' → wf_machine m'.
Proof.
  intros (Htlb & Hb & Hmc & Hpt & Hps) Hfo. unfold switch_process.
  intros Hswitch.
  assert (length (memset_tlb (tlb m)) = length (tlb m)) as Hmem
    by (unfold memset_tlb; by rewrite length_fmap).
  destruct (take_pid pid' (processes m)) as [[p rest]|] eqn:Htake.
  - simplify_eq/=.
    destruct (take_pid_Forall _ _ _ _ _ Htake Hps) as [Hp Hrest].
    split_and!; simpl; try done.
    + by rewrite Hmem.
    + unfold tlb_in_bounds in *. simpl. by rewrite Hmem.
    + apply Forall_app. split; [done|]. by constructor.
  - destruct (for_loop _ _ _ _) as [[[ppt cpt] mc]|] eqn:Hloop; simplify_eq/=.
    apply (for_loop_preserves
             (λ st, wf_pagetable st.1.1 ∧ wf_pagetable st.1.2 ∧
                    length st.2 = length (mapcounts m))) in Hloop
      as (Hppt & Hcpt & Hmc').
    + simpl in Hppt, Hcpt, Hmc'. split_and!; simpl; try done.
      * by rewrite Hmem.
      * unfold tlb_in_bounds in *. simpl. by rewrite Hmem.
      * by rewrite Hmc'.
      * apply Forall_app. split; [done|]. by constructor.
    + intros k [[a b] c] [[a' b'] c'] Hk. simpl. by eapply wf_fork_directory.
    + simpl. split_and!; [done| |done]. apply wf_pagetable_iff.
      split; [apply length_malloc_pagetable|].
      unfold malloc_pagetable. apply Forall_fmap, Forall_forall.
      intros i _ d. apply Hfo.
Qed.

Lemma wf_init : wf_machine init.
Proof.
  unfold wf_machine, init, tlb_in_bounds, ptbr.
  cbn [tlb tlbSize mapcounts current processes pgtable]. split_and!.
  - by rewrite length_replicate.
  - lia.
  - lia.
  - by rewrite length_replicate.
  - apply wf_pagetable_iff. split; [by rewrite length_replicate|].
    by apply Forall_replicate.
  - constructor.
Qed.

Lemma wf_step m r m' :
  wf_machine m → sized_request r → step m r = Some m' → wf_machine m'.
Proof.
  destruct r; simpl; intros Hm Hr Hstep.
  - destruct (alloc_page m fresh vpn rw) as [[m1 b]|] eqn:Ha; simplify_eq/=.
    by eapply wf_alloc_page.
  - by eapply wf_free_page.
  - destruct (handle_page_fault m vpn rw) as [[m1 b]|] eqn:Hf; simplify_eq/=.
    by eapply wf_handle_page_fault.
  - by eapply wf_switch_process.
  - unfold insert_tlb in Hstep.
    destruct (load (tlb m) (tlbSize m)) eqn:Hload; simplify_eq/=.
    apply load_bounds in Hload.
    destruct Hm as (Htlb & Hb & Hmc & Hpt & Hps).
    split_and!; simpl; try done.
    + by rewrite length_store.
    + unfold tlb_in_bounds. simpl. rewrite length_store. lia.
  - destruct (lookup_tlb m vpn); by simplify_eq/=.
Qed.

(** X13: no operation resizes anything or lets [tlbSize] leave the
    array.  From a machine whose TLB, count table and page tables have
    their declared sizes, with [tlbSize] between 0 and the size of the
    TLB, every run that stays defined ends in such a machine; the initial
    machine is one. *)
Theorem run_keeps_sizes m rs m' :
  wf_machine m → Forall sized_request rs → run m rs = Some m' →
  wf_machine m'.
Proof.
  revert m. induction rs as [|r rs IH]; intros m Hm Hrs Hrun; simpl in Hrun.
  - by simplify_eq.
  - apply Forall_cons_1 in Hrs as [Hr Hrs].
    destruct (step m r) as [m1|] eqn:Hstep; simplify_eq/=.
    eapply IH; [|done..]. by eapply wf_step.
Qed.

(** ** The counts against the page tables *)



































End pa3_properties.

(** * Runs on the framework's configuration *)

Section framework_runs.
#[local] Existing Instance framework.


(** The condition on fresh blocks in [ro_request] is not idle: [malloc]
    does not clear what it returns, and a directory created for vpn 5 may
    hold, at vpn 6, bits that read as a valid, writable entry tagged
    read-only. *)
Lemma uninitialised_entry_tagged_writable :
  ∃ m e,
    run init [AllocPage (λ _, Pte true true 7 RW_READ) 5 RW_READ] = Some m ∧
    current_pte m 6 = Some e ∧
    valid e = true ∧ private e = RW_READ ∧ writable e = true.
Proof.
  eexists _, _. split; [vm_compute; reflexivity|].
  split; [vm_compute; reflexivity|]. done.
Qed.

(** C5 at a failing input: vpn 5 is allocated read-only, freed, and
    allocated again read-write; the process forks, the child frees the
    page, and the parent resumes.  The parent's entry is valid and
    write-protected by the fork, the page was allocated read-write, and
    its frame has count exactly 1; but [private] still reads [RW_READ]
    from the first allocation, and the handler refuses the write and
    leaves the entry write-protected. *)
Lemma stale_tag_refuses_sole_owner :
  ∃ m1 m,
    run init [AllocPage zeroed 5 RW_READ; FreePage 5;
              AllocPage zeroed 5 (Z.lor RW_WRITE RW_READ)] = Some m1 ∧
    current_pte m1 5 = Some (Pte true true 0 RW_READ) ∧
    run m1 [SwitchProcess zeroed_outer zeroed2 1; FreePage 5;
            SwitchProcess zeroed_outer zeroed2 0] = Some m ∧
    pid (current m) = 0 ∧
    current_pte m 5 = Some (Pte true false 0 RW_READ) ∧
    load (mapcounts m) 0 = Some 1 ∧
    handle_page_fault m 5 RW_WRITE = Some (m, false).
Proof.
  eexists _, _. split; [vm_compute; reflexivity|].
  split; [vm_compute; reflexivity|].
  split; [vm_compute; reflexivity|]. by vm_compute.
Qed.

(** C2 at a failing input: all 128 frames are mapped, the process forks,
    and the child takes a write fault on vpn 0.  The entry is valid,
    write-protected, not tagged read-only, and its frame has count 2; once
    that count is decremented no frame is free, [find_smallest_pfn]
    returns NR_PAGEFRAMES, and the handler indexes [mapcounts] there,
    outside the array. *)
Lemma cow_fault_without_free_frame :
  ∃ m e,
    run init (exhaust_frames ++ [SwitchProcess zeroed_outer zeroed2 1])
      = Some m ∧
    current_pte m 0 = Some e ∧ cow_fault e RW_WRITE ∧
    load (mapcounts m) (pfn e) = Some 2 ∧
    find_smallest_pfn (store (mapcounts m) (pfn e) (u32 (2 - 1)))
      = Some NR_PAGEFRAMES ∧
    load (store (mapcounts m) (pfn e) (u32 (2 - 1))) NR_PAGEFRAMES = None ∧
    handle_page_fault m 0 RW_WRITE = None.
Proof.
  eexists _, _. split; [vm_compute; reflexivity|].
  split; [vm_compute; reflexivity|].
  split; [|by vm_compute]. by repeat split.
Qed.

(** C3 at a failing input: process 0 maps vpn 0 to frame 0 and the
    translation is inserted in the TLB; [switch_process 1] zeroes the
    array but leaves [tlbSize] at 1, so the lookup of vpn 0 under process 1
    hits the zeroed slot and returns frame 0. *)
Lemma tlb_hit_after_switch :
  ∃ m,
    run init [AllocPage zeroed 0 (Z.lor RW_WRITE RW_READ); InsertTlb 0 0;
              SwitchProcess zeroed_outer zeroed2 1] = Some m ∧
    pid (current m) = 1 ∧ tlbSize m = 1 ∧
    lookup_tlb m 0 = Some (Some 0).
Proof. eexists. split; [vm_compute; reflexivity|]. by vm_compute. Qed.

(** C7 at a failing input: with vpn 1 and vpn 2 in the TLB, in that
    order, [free_page 1] clears the [valid] flag of slot 0 and decrements
    [tlbSize]; the lookup does not read [valid], so vpn 1 still hits, and
    vpn 2, now at index [tlbSize], is no longer found. *)
Lemma free_page_evicts_wrong_entry :
  ∃ m,
    run init [AllocPage zeroed 1 (Z.lor RW_WRITE RW_READ);
              AllocPage zeroed 2 (Z.lor RW_WRITE RW_READ);
              InsertTlb 1 0; InsertTlb 2 1; FreePage 1] = Some m ∧
    current_pte m 1 = Some (Pte false false 0 0) ∧
    lookup_tlb m 1 = Some (Some 0) ∧
    lookup_tlb m 2 = Some None.
Proof. eexists. split; [vm_compute; reflexivity|]. by vm_compute. Qed.

(** ** The theorems at concrete machines *)

Lemma read_only_never_writable_witness :
  ro_machine (after [AllocPage zeroed 5 RW_READ]) ∧
  (∀ vpn rw e,
     current_pte (after [AllocPage zeroed 5 RW_READ]) vpn = Some e →
     private e = RW_READ →
     handle_page_fault (after [AllocPage zeroed 5 RW_READ]) vpn rw =
       Some (after [AllocPage zeroed 5 RW_READ], false)) ∧
  (∀ fresh vpn m' r,
     alloc_page (after [AllocPage zeroed 5 RW_READ]) fresh vpn RW_READ =
       Some (m', r) →
     ∃ e, current_pte m' vpn = Some e ∧
       valid e = true ∧ private e = RW_READ ∧ writable e = false) ∧
  (∀ r m', same_process r →
     step (after [AllocPage zeroed 5 RW_READ]) r = Some m' →
     tags_kept (after [AllocPage zeroed 5 RW_READ]) m').
Proof.
  apply (read_only_never_writable (after [AllocPage zeroed 5 RW_READ])).
  apply (ro_reachable_step init (AllocPage zeroed 5 RW_READ)).
  - apply ro_reachable_init.
  - split; [by intros j ?|]. intros Hne. by destruct Hne.
  - vm_compute. reflexivity.
Defined.

Lemma handle_page_fault_unmapped_witness :
  handle_page_fault init 5 RW_WRITE = Some (init, false).
Proof.
  apply (handle_page_fault_unmapped init 5 RW_WRITE).
  left. vm_compute. reflexivity.
Defined.

Lemma alloc_page_smallest_free_witness :
  ∃ f m' e', least_free (mapcounts init) f ∧
    alloc_page init zeroed 5 RW_READ = Some (m', f) ∧
    current_pte m' 5 = Some e' ∧ valid e' = true ∧ pfn e' = f ∧
    load (mapcounts m') f = Some 1 ∧
    ∀ g, g ≠ f → load (mapcounts m') g = load (mapcounts init) g.
Proof.
  apply (alloc_page_smallest_free init zeroed 5 RW_READ).
  - by apply (bool_decide_unpack _); vm_compute.
  - unfold vpn_in_range. simpl. lia.
  - simpl. lia.
  - reflexivity.
  - exists 0. reflexivity.
Defined.

Lemma alloc_page_out_of_memory_witness :
  ∃ m' e e',
    alloc_page (after exhaust_frames) zeroed 200 RW_READ
      = Some (m', u32 (-1)) ∧
    mapcounts m' = mapcounts (after exhaust_frames) ∧
    tlb m' = tlb (after exhaust_frames) ∧
    tlbSize m' = tlbSize (after exhaust_frames) ∧
    alloc_target (after exhaust_frames) zeroed 200 = Some e ∧
    current_pte m' 200 = Some e' ∧
    valid e' = true ∧ pfn e' = pfn e ∧
    (RW_READ = RW_READ → writable e' = false ∧ private e' = RW_READ) ∧
    (RW_READ ≠ RW_READ → RW_READ = Z.lor RW_WRITE RW_READ →
       writable e' = true ∧ private e' = private e) ∧
    (RW_READ ≠ RW_READ → RW_READ ≠ Z.lor RW_WRITE RW_READ →
       writable e' = writable e ∧ private e' = private e) ∧
    (load (ptbr (after exhaust_frames)) (200 / NR_PTES_PER_PAGE) = Some None →
       load (ptbr m') (200 / NR_PTES_PER_PAGE) =
         Some (Some (store (malloc_directory zeroed)
                       (200 mod NR_PTES_PER_PAGE) e'))).
Proof.
  apply (alloc_page_out_of_memory (after exhaust_frames) zeroed 200 RW_READ).
  - by apply (bool_decide_unpack _); vm_compute.
  - unfold vpn_in_range. simpl. lia.
  - simpl. lia.
  - reflexivity.
  - intros g Hg. apply load_Some in Hg as [_ Hg].
    change (mapcounts (after exhaust_frames)) with (replicate 128 1) in Hg.
    by apply lookup_replicate in Hg as [? _].
Defined.

Lemma handle_page_fault_sole_owner_witness :
  ∃ m', handle_page_fault (after sole_owner) 0 RW_WRITE = Some (m', true) ∧
    current_pte m' 0 = Some (Pte true true 0 0) ∧
    (∀ o i, (o, i) ≠ (0 / NR_PTES_PER_PAGE, 0 mod NR_PTES_PER_PAGE) →
            pte_at (ptbr m') o i = pte_at (ptbr (after sole_owner)) o i) ∧
    mapcounts m' = mapcounts (after sole_owner) ∧
    processes m' = processes (after sole_owner) ∧
    pid (current m') = pid (current (after sole_owner)) ∧
    tlb m' = tlb (after sole_owner) ∧ tlbSize m' = tlbSize (after sole_owner).
Proof.
  apply (handle_page_fault_sole_owner (after sole_owner) 0 RW_WRITE
           (Pte true false 0 0)).
  - reflexivity.
  - by repeat split.
  - reflexivity.
Defined.

Lemma handle_page_fault_cow_bounds_witness :
  ∃ m' e', handle_page_fault (after shared_page) 0 RW_WRITE = Some (m', true) ∧
    current_pte m' 0 = Some e' ∧
    0 ≤ 0 < NR_PAGEFRAMES ∧ 0 ≤ pfn e' < NR_PAGEFRAMES ∧
    least_free (store (mapcounts (after shared_page)) 0 (u32 (2 - 1)))
               (pfn e').
Proof.
  apply (handle_page_fault_cow_bounds (after shared_page) 0 RW_WRITE
           (Pte true false 0 0) 2).
  - reflexivity.
  - by repeat split.
  - reflexivity.
  - lia.
  - simpl. lia.
  - reflexivity.
  - exists 1. reflexivity.
Defined.

Lemma switch_process_fork_cow_witness :
  ∃ m' parent,
    switch_process (after [AllocPage zeroed 0 (Z.lor RW_WRITE RW_READ)])
      zeroed_outer zeroed2 1 = Some m' ∧
    pid (current m') = 1 ∧
    processes m' =
      processes (after [AllocPage zeroed 0 (Z.lor RW_WRITE RW_READ)])
        ++ [parent] ∧
    pid parent =
      pid (current (after [AllocPage zeroed 0 (Z.lor RW_WRITE RW_READ)])) ∧
    (∀ o i e,
       pte_at (ptbr (after [AllocPage zeroed 0 (Z.lor RW_WRITE RW_READ)])) o i
         = Some e →
       valid e = true →
       pte_at (ptbr m') o i = Some (Pte true false (pfn e) (private e)) ∧
       pte_at (pgtable parent) o i =
         Some (Pte true false (pfn e) (private e))) ∧
    (∀ f c,
       load (mapcounts (after [AllocPage zeroed 0 (Z.lor RW_WRITE RW_READ)])) f
         = Some c →
       load (mapcounts m') f =
         Some (Nat.iter
                 (sharers f
                    (ptes_of
                       (ptbr (after [AllocPage zeroed 0
                                       (Z.lor RW_WRITE RW_READ)]))))
                 bump c)).
Proof.
  apply (switch_process_fork_cow
           (after [AllocPage zeroed 0 (Z.lor RW_WRITE RW_READ)])
           zeroed_outer zeroed2 1).
  - reflexivity.
  - by apply (bool_decide_unpack _); vm_compute.
  - by apply (bool_decide_unpack _); vm_compute.
Defined.

(** ** The further properties at concrete machines *)

Lemma lookup_tlb_insert_tlb_witness :
  ∃ r, lookup_tlb (after two_cached) 1 = Some r ∧
    lookup_tlb (after (two_cached ++ [InsertTlb 1 9])) 1 =
      Some (match r with
            | Some p => Some p
            | None => if decide (1 = 1) then Some 9 else None
            end).
Proof.
  apply (lookup_tlb_insert_tlb (after two_cached) 1 9
           (after (two_cached ++ [InsertTlb 1 9])) 1).
  vm_compute. reflexivity.
Defined.

Lemma free_page_tlb_witness :
  ∃ r, lookup_tlb (after two_cached) 1 = Some r ∧
    match r with
    | None =>
        tlb (after (two_cached ++ [FreePage 1])) = tlb (after two_cached) ∧
        tlbSize (after (two_cached ++ [FreePage 1])) =
          tlbSize (after two_cached)
    | Some _ =>
        tlbSize (after (two_cached ++ [FreePage 1])) =
          tlbSize (after two_cached) - 1 ∧
        ∀ v, lookup_tlb (after (two_cached ++ [FreePage 1])) v =
             lookup_tlb_from (tlb (after two_cached)) v
               (Z.to_nat (tlbSize (after two_cached) - 1)) 0
    end.
Proof.
  apply (free_page_tlb (after two_cached) 1
           (after (two_cached ++ [FreePage 1]))).
  - by apply (bool_decide_unpack _); vm_compute.
  - vm_compute. reflexivity.
Defined.

Lemma tlb_across_switch_witness :
  tlbSize (after (two_cached ++ [SwitchProcess zeroed_outer zeroed2 1])) =
    tlbSize (after two_cached) ∧
  length (tlb (after (two_cached ++
                        [SwitchProcess zeroed_outer zeroed2 1]))) =
    length (tlb (after two_cached)) ∧
  ∀ v, lookup_tlb
         (after (two_cached ++ [SwitchProcess zeroed_outer zeroed2 1])) v =
       Some (if decide (v = 0 ∧ tlbSize (after two_cached) ≠ 0)
             then Some 0 else None).
Proof.
  apply (tlb_across_switch (after two_cached) zeroed_outer zeroed2 1).
  - vm_compute. reflexivity.
  - by apply (bool_decide_unpack _); vm_compute.
Defined.

Lemma free_page_unmaps_witness :
  ∃ m', free_page (after two_cached) 2 = Some m' ∧
    current_pte m' 2 = Some (Pte false false 0 0) ∧
    load (mapcounts m') 1 = Some (u32 (1 - 1)) ∧
    (∀ g, g ≠ 1 →
          load (mapcounts m') g = load (mapcounts (after two_cached)) g) ∧
    (∀ o i, (o, i) ≠ (2 / NR_PTES_PER_PAGE, 2 mod NR_PTES_PER_PAGE) →
            pte_at (ptbr m') o i = pte_at (ptbr (after two_cached)) o i) ∧
    processes m' = processes (after two_cached) ∧
    pid (current m') = pid (current (after two_cached)).
Proof.
  apply (free_page_unmaps (after two_cached) 2 (Pte true true 1 0) 1).
  - reflexivity.
  - reflexivity.
  - by apply (bool_decide_unpack _); vm_compute.
Defined.

Lemma free_page_twice_witness :
  ∃ m1 c0 m2, free_page (after two_cached) 2 = Some m1 ∧
    load (mapcounts m1) 0 = Some c0 ∧
    free_page m1 2 = Some m2 ∧
    load (mapcounts m2) 0 = Some (u32 (c0 - 1)) ∧
    current_pte m2 2 = Some (Pte false false 0 0).
Proof.
  apply (free_page_twice (after two_cached) 2 (Pte true true 1 0) 1).
  - reflexivity.
  - reflexivity.
  - by apply (bool_decide_unpack _); vm_compute.
Defined.

Lemma alloc_then_free_witness :
  ∃ f m1 m2 e2,
    alloc_page (after two_cached) zeroed 40 RW_READ = Some (m1, f) ∧
    least_free (mapcounts (after two_cached)) f ∧
    free_page m1 40 = Some m2 ∧
    mapcounts m2 = mapcounts (after two_cached) ∧
    current_pte m2 40 = Some e2 ∧
    valid e2 = false ∧ writable e2 = false ∧ pfn e2 = 0 ∧
    processes m2 = processes (after two_cached).
Proof.
  apply (alloc_then_free (after two_cached) zeroed 40 RW_READ).
  - by apply (bool_decide_unpack _); vm_compute.
  - unfold vpn_in_range. simpl. lia.
  - simpl. lia.
  - reflexivity.
  - by apply (bool_decide_unpack _); vm_compute.
  - exists 2. reflexivity.
Defined.

Lemma lookup_tlb_first_match_witness :
  match lookup_tlb (after two_cached) 2 with
  | Some (Some p) =>
      ∃ k x, 0 ≤ k < tlbSize (after two_cached) ∧
        load (tlb (after two_cached)) k = Some x ∧
        tlb_vpn x = 2 ∧ tlb_pfn x = p ∧
        ∀ j x', 0 ≤ j < k → load (tlb (after two_cached)) j = Some x' →
                tlb_vpn x' ≠ 2
  | Some None =>
      ∀ k x, 0 ≤ k < tlbSize (after two_cached) →
             load (tlb (after two_cached)) k = Some x → tlb_vpn x ≠ 2
  | None => False
  end.
Proof.
  apply (lookup_tlb_first_match (after two_cached) 2).
  by apply (bool_decide_unpack _); vm_compute.
Defined.

Lemma find_smallest_pfn_contract_witness :
  ∃ r, find_smallest_pfn (mapcounts (after two_cached)) = Some r ∧
    0 ≤ r ≤ NR_PAGEFRAMES ∧
    (r < NR_PAGEFRAMES → least_free (mapcounts (after two_cached)) r) ∧
    (r = NR_PAGEFRAMES ↔ all_frames_used (mapcounts (after two_cached))).
Proof.
  apply (find_smallest_pfn_contract (mapcounts (after two_cached))).
  - simpl. lia.
  - reflexivity.
Defined.

Lemma handle_page_fault_outcome_witness :
  tlb (after (shared_page ++ [HandlePageFault 0 RW_WRITE])) =
    tlb (after shared_page) ∧
  tlbSize (after (shared_page ++ [HandlePageFault 0 RW_WRITE])) =
    tlbSize (after shared_page) ∧
  processes (after (shared_page ++ [HandlePageFault 0 RW_WRITE])) =
    processes (after shared_page) ∧
  pid (current (after (shared_page ++ [HandlePageFault 0 RW_WRITE]))) =
    pid (current (after shared_page)) ∧
  (true = false →
     after (shared_page ++ [HandlePageFault 0 RW_WRITE]) =
       after shared_page) ∧
  (true = true →
     ∃ e e', current_pte (after shared_page) 0 = Some e ∧
       cow_fault e RW_WRITE ∧
       current_pte (after (shared_page ++ [HandlePageFault 0 RW_WRITE])) 0
         = Some e' ∧
       valid e' = true ∧ writable e' = true ∧ private e' = private e).
Proof.
  apply (handle_page_fault_outcome (after shared_page) 0 RW_WRITE
           (after (shared_page ++ [HandlePageFault 0 RW_WRITE])) true).
  vm_compute. reflexivity.
Defined.

Lemma alloc_page_frame_witness :
  tlb (after (two_cached ++ [AllocPage zeroed 40 RW_READ])) =
    tlb (after two_cached) ∧
  tlbSize (after (two_cached ++ [AllocPage zeroed 40 RW_READ])) =
    tlbSize (after two_cached) ∧
  processes (after (two_cached ++ [AllocPage zeroed 40 RW_READ])) =
    processes (after two_cached) ∧
  pid (current (after (two_cached ++ [AllocPage zeroed 40 RW_READ]))) =
    pid (current (after two_cached)) ∧
  (∀ o i e, (o, i) ≠ (40 / NR_PTES_PER_PAGE, 40 mod NR_PTES_PER_PAGE) →
     pte_at (ptbr (after two_cached)) o i = Some e →
     pte_at (ptbr (after (two_cached ++ [AllocPage zeroed 40 RW_READ]))) o i
       = Some e) ∧
  (∀ g, g ≠ 2 →
     load (mapcounts (after (two_cached ++ [AllocPage zeroed 40 RW_READ]))) g
       = load (mapcounts (after two_cached)) g).
Proof.
  apply (alloc_page_frame (after two_cached) zeroed 40 RW_READ
           (after (two_cached ++ [AllocPage zeroed 40 RW_READ])) 2).
  vm_compute. reflexivity.
Defined.

Lemma switch_process_resume_witness :
  switch_process (after shared_page) zeroed_outer zeroed2 0 =
    Some (Machine (memset_tlb (tlb (after shared_page)))
            (tlbSize (after shared_page)) (mapcounts (after shared_page))
            (Process 0 (fork_parent (ptbr (after [AllocPage zeroed 0 (Z.lor RW_WRITE RW_READ)]))))
            (([] ++ []) ++ [current (after shared_page)])).
Proof.
  apply (switch_process_resume (after shared_page) zeroed_outer zeroed2 0
           [] [] (Process 0 (fork_parent (ptbr (after [AllocPage zeroed 0 (Z.lor RW_WRITE RW_READ)]))))).
  - vm_compute. reflexivity.
  - constructor.
  - reflexivity.
Defined.

Lemma switch_process_fork_and_back_witness :
  ∃ m1 m2 child,
    switch_process (after two_cached) zeroed_outer zeroed2 1 = Some m1 ∧
    switch_process m1 zeroed_outer zeroed2 (pid (current (after two_cached)))
      = Some m2 ∧
    pid (current m2) = pid (current (after two_cached)) ∧
    ptbr m2 = fork_parent (ptbr (after two_cached)) ∧
    (∀ o i, pte_at (ptbr m2) o i =
            protect <$> pte_at (ptbr (after two_cached)) o i) ∧
    processes m2 = processes (after two_cached) ++ [child] ∧
    current m1 = child ∧ pid child = 1 ∧
    mapcounts m2 = mapcounts m1.
Proof.
  apply (switch_process_fork_and_back (after two_cached)
           zeroed_outer zeroed2 zeroed_outer zeroed2 1).
  - constructor.
  - constructor.
  - by apply (bool_decide_unpack _); vm_compute.
  - by apply (bool_decide_unpack _); vm_compute.
Defined.

Lemma run_keeps_sizes_witness : wf_machine (after shared_page).
Proof.
  apply (run_keeps_sizes init shared_page (after shared_page)).
  - apply wf_init.
  - repeat constructor. intros i d Hd. discriminate Hd.
  - vm_compute. reflexivity.
Defined.


End framework_runs.
